(** * CatSniffer tools (pycatsniffer_bv3): protocol commands and the FIFO worker

    A shallow embedding of [Modules/Protocols.py] (protocol descriptors,
    command encoding, registry lookup) and of [Modules/Fifo.py] (the
    background worker that drains the pending-frame slot into a pipe),
    followed by the properties established about them. *)

From Stdlib Require Import ZArith QArith Qround List String Strings.Byte Bool Lia.
Import ListNotations.
Local Open Scope Z_scope.

(** ** Python values, exceptions and byte strings *)

Module Py.

(** The exceptions the embedded code can raise. *)
Inductive exn : Type :=
| ValueError
| OverflowError.

(** A call either returns a value or raises. *)
Inductive result (A : Type) : Type :=
| Ok (a : A)
| Raise (e : exn).
Arguments Ok {A} a.
Arguments Raise {A} e.

Definition bind {A B : Type} (r : result A) (k : A -> result B) : result B :=
  match r with
  | Ok a => k a
  | Raise e => Raise e
  end.

Definition bytes : Type := list byte.

(** A number as the descriptors hold them: an [int], or a finite [float]
    given by the rational it denotes ([433.5] is [867 # 2]). *)
Inductive num : Type :=
| PyInt (z : Z)
| PyFloat (q : Q).

(** [int(x)] on a number: the identity on an [int], truncation toward zero
    on a [float]. *)
Definition int_of_num (x : num) : Z :=
  match x with
  | PyInt z => z
  | PyFloat q => Z.quot (Qnum q) (Z.pos (Qden q))
  end.

Definition byte_of_Z (z : Z) : byte :=
  match Byte.of_N (Z.to_N (z mod 256)) with
  | Some b => b
  | None => x00
  end.

(** [n.to_bytes(2, byteorder="little")]: raises [OverflowError] on a
    negative [n] and on [n >= 2**16]. *)
Definition to_bytes2_little (n : Z) : result bytes :=
  if (0 <=? n) && (n <? 65536)
  then Ok [byte_of_Z n; byte_of_Z (n / 256)]
  else Raise OverflowError.

(** Reading two bytes back as an unsigned little-endian integer. *)
Definition from_bytes_little (bs : bytes) : Z :=
  fold_right (fun b acc => Z.of_N (Byte.to_N b) + 256 * acc) 0 bs.

End Py.

Import Py.

Declare Scope py_scope.
Notation "x <- c1 ;; c2" := (Py.bind c1 (fun x => c2))
  (at level 61, c1 at next level, right associativity) : py_scope.
Local Open Scope py_scope.

(** ** Definitions.py: commands *)

(** Modelled from the spec: [Definitions.SnifferCommands] and
    [Definitions.PacketCommand] are imported by [Protocols.py] but their
    module is not part of the sources. A command is an opcode plus an
    optional payload byte sequence; the opcode is kept as the member of
    [SnifferCommands] whose [.value] the code passes, and a command built
    without a payload has the empty one. *)
Inductive SnifferCommands : Type :=
| CMD_PING
| CMD_START
| CMD_STOP
| CMD_CFG_FREQUENCY
| CMD_CFG_PHY
| CMD_CFG_BLE_INITIATOR_ADDRESS.

Record PacketCommand : Type := mkPacketCommand {
  opcode : SnifferCommands;
  payload : bytes
}.

(** ** Protocols.py: class Protocol *)

(** What [get_channel_bytes] hands to [calculate_frequency]: the second
    component of the matching channel pair, or the empty byte string
    [b""] when no pair matches. *)
Inductive channel_bytes : Type :=
| Freq (f : num)
| EmptyBytes.

(** [int(x)] on such a value: [int(b"")] raises [ValueError]. *)
Definition py_int (x : channel_bytes) : result Z :=
  match x with
  | Freq f => Ok (int_of_num f)
  | EmptyBytes => Raise ValueError
  end.

Record Protocol : Type := mkProtocol {
  phy_index : bytes;
  name : string;
  phy_label : string;
  base_frequency : num;
  spacing : num;
  channel_range : list (Z * num);
  pcap_header : Z;
  common_names : list string;
  profile : string
}.

Definition CONST_FRECUENCY : Z := 65536.

(** [name in self.common_names] *)
Definition str_in (s : string) (l : list string) : bool :=
  existsb (String.eqb s) l.

Definition find_by_name (self : Protocol) (nm : string) : option Protocol :=
  if str_in nm (common_names self) then Some self else None.

(** [__calculate_fractional_frequency]: the fractional value is computed
    from [integer_value - integer_value]. *)
Definition calculate_fractional_frequency (frequency : channel_bytes)
  : result (Z * Z) :=
  integer_value <- py_int frequency ;;
  let fractional_value := (integer_value - integer_value) * CONST_FRECUENCY in
  Ok (integer_value, fractional_value).

Definition calculate_frequency (frequency : channel_bytes) : result bytes :=
  p <- calculate_fractional_frequency frequency ;;
  let '(frequency_int, frequency_fract) := p in
  frequency_int_bytes <- to_bytes2_little frequency_int ;;
  frequency_fract_bytes <- to_bytes2_little frequency_fract ;;
  Ok (frequency_int_bytes ++ frequency_fract_bytes).

(** [get_channel_bytes]: first pair whose index equals [channel_index],
    else [b""]. *)
Fixpoint lookup_channel (l : list (Z * num)) (channel_index : Z)
  : channel_bytes :=
  match l with
  | [] => EmptyBytes
  | (i, f) :: rest =>
      if i =? channel_index then Freq f else lookup_channel rest channel_index
  end.

Definition get_channel_bytes (self : Protocol) (channel_index : Z)
  : channel_bytes :=
  lookup_channel (channel_range self) channel_index.

(** [list_channel_range]: the channel indices, in registration order. *)
Definition list_channel_range (self : Protocol) : list Z :=
  map fst (channel_range self).

Definition command_start (self : Protocol) : PacketCommand :=
  mkPacketCommand CMD_START [].

Definition command_stop (self : Protocol) : PacketCommand :=
  mkPacketCommand CMD_STOP [].

Definition command_ping (self : Protocol) : PacketCommand :=
  mkPacketCommand CMD_PING [].

Definition command_cfg_phy (self : Protocol) : PacketCommand :=
  mkPacketCommand CMD_CFG_PHY (phy_index self).

Definition command_cfg_frequency (self : Protocol) (channel : Z)
  : result PacketCommand :=
  let get_channel := get_channel_bytes self channel in
  get_frequency <- calculate_frequency get_channel ;;
  Ok (mkPacketCommand CMD_CFG_FREQUENCY get_frequency).

Definition command_cfg_init_address (self : Protocol) (address : bytes)
  : PacketCommand :=
  mkPacketCommand CMD_CFG_BLE_INITIATOR_ADDRESS address.

(** [command_startup]: the list display evaluates its elements left to
    right; an exception in [command_cfg_frequency] leaves no list. *)
Definition command_startup (self : Protocol) (channel : Z)
  : result (list PacketCommand) :=
  let c_ping := command_ping self in
  let c_stop := command_stop self in
  let c_phy := command_cfg_phy self in
  c_freq <- command_cfg_frequency self channel ;;
  let c_start := command_start self in
  Ok [c_ping; c_stop; c_phy; c_freq; c_start].

(** ** Protocols.py: the descriptors *)

Local Open Scope string_scope.

Definition PROTOCOL_BLE : Protocol := {|
  phy_index := [x13];
  name := "Bluetooth LE";
  phy_label := "2402 MHz - Freq Band";
  base_frequency := PyFloat 2402;
  spacing := PyInt 2;
  channel_range := [(37, PyInt 2402); (38, PyInt 2426); (39, PyInt 2480)];
  pcap_header := 147;
  common_names := ["ble"; "bluetooth"; "bluetoothle"];
  profile := "Default"
|}.

(** [[(channel, 2405.0 + 5 * (channel - 11)) for channel in range(11, 27)]] *)
Definition zigbee_channels : list (Z * num) :=
  map (fun channel => (channel, PyFloat (2405 + inject_Z (5 * (channel - 11)))))
      (map Z.of_nat (seq 11 16)).

Definition PROTOCOL_ZIGBEE : Protocol := {|
  phy_index := [x12];
  name := "Zigbee";
  phy_label := "2405 MHz - Freq Band";
  base_frequency := PyFloat 2405;
  spacing := PyInt 5;
  channel_range := zigbee_channels;
  pcap_header := 147;
  common_names := ["zigbee"; "zig"; "zb"];
  profile := "Zigbee"
|}.

Definition PROTOCOL_THREAD : Protocol := {|
  phy_index := [x12];
  name := "Thread";
  phy_label := "2405 MHz - Freq Band";
  base_frequency := PyFloat 2405;
  spacing := PyInt 5;
  channel_range := zigbee_channels;
  pcap_header := 147;
  common_names := ["thread"];
  profile := "Thread"
|}.

Definition PROTOCOL_LORA : Protocol := {|
  phy_index := [x14];
  name := "LoRa";
  phy_label := "915 MHz - Freq Band";
  base_frequency := PyFloat 915;
  spacing := PyInt 125;
  channel_range := [(0, PyInt 433); (1, PyInt 434); (2, PyInt 435)];
  pcap_header := 148;
  common_names := [];
  profile := "Default"
|}.

(** ** Protocols.py: class PROTOCOLSLIST *)

(** A member of the enumeration: its member name and its value. *)
Record Member : Type := mkMember {
  member_name : string;
  value : Protocol
}.

(** Iterating the class yields the members in definition order. *)
Definition PROTOCOLSLIST : list Member :=
  [ mkMember "PROTOCOL_BLE" PROTOCOL_BLE;
    mkMember "PROTOCOL_ZIGBEE" PROTOCOL_ZIGBEE;
    mkMember "PROTOCOL_THREAD" PROTOCOL_THREAD;
    mkMember "PROTOCOL_LORA" PROTOCOL_LORA ].

(** [get_protocol_by_name] returns the member itself on a match with the
    member's name, and the descriptor ([find_by_name]'s [self]) on a match
    with one of the common names. *)
Inductive resolved : Type :=
| ByMember (m : Member)
| ByValue (p : Protocol).

Definition descriptor_of (r : resolved) : Protocol :=
  match r with
  | ByMember m => value m
  | ByValue p => p
  end.

Fixpoint get_protocol_by_name_in (cls : list Member) (nm : string)
  : option resolved :=
  match cls with
  | [] => None
  | protocol :: rest =>
      if String.eqb (member_name protocol) nm then Some (ByMember protocol)
      else match find_by_name (value protocol) nm with
           | Some get_protocol => Some (ByValue get_protocol)
           | None => get_protocol_by_name_in rest nm
           end
  end.

Definition get_protocol_by_name (nm : string) : option resolved :=
  get_protocol_by_name_in PROTOCOLSLIST nm.

(** [nm] is the name of the member [m] or one of the common names of its
    descriptor. *)
Definition answers (nm : string) (m : Member) : Prop :=
  member_name m = nm \/ In nm (common_names (value m)).

(** The frequency payload as the specification words it: bytes 0-1 the
    integer part (floor) of the frequency in MHz, bytes 2-3
    [round((frequency - floor(frequency)) * 65536)], both unsigned 16-bit
    little-endian. Used only to compare the code against. *)
Definition spec_fractional_units (frequency : Q) : Z :=
  let frac := (frequency - inject_Z (Qfloor frequency))%Q in
  Qfloor (frac * inject_Z 65536 + (1 # 2))%Q.

Definition spec_frequency_payload (frequency : Q) : bytes :=
  let i := Qfloor frequency in
  let u := spec_fractional_units frequency in
  [byte_of_Z i; byte_of_Z (i / 256); byte_of_Z u; byte_of_Z (u / 256)].

(** [Protocol(channel_range=[(0, 433.5)])]: every other attribute at the
    default of [__init__] ([bytes(0)] is the empty byte string). *)
Definition PROTOCOL_433_5 : Protocol := {|
  phy_index := [];
  name := "Base Protocol";
  phy_label := "Base Protocol";
  base_frequency := PyInt 0;
  spacing := PyInt 0;
  channel_range := [(0, PyFloat (867 # 2))];
  pcap_header := 147;
  common_names := [];
  profile := "Default"
|}.

Local Close Scope string_scope.

(** A descriptor all of whose frequencies fit the 16-bit integer field. *)
Definition encodable (self : Protocol) : Prop :=
  Forall (fun cf => 0 <= int_of_num (snd cf) < 65536) (channel_range self).

Definition encodableb (self : Protocol) : bool :=
  forallb (fun cf => (0 <=? int_of_num (snd cf)) && (int_of_num (snd cf) <? 65536))
          (channel_range self).

(** ** Fifo.py: the worker thread and its pending-frame slot *)

Module Fifo.

(** [FifoLinux] writes to a special file under [/tmp]; [FifoWindows] to a
    named pipe handle. *)
Inductive variant : Type :=
| Linux
| Windows.

(** What is handed to [write] / [WriteFile]. *)
Inductive chunk : Type :=
| GlobalHeader (linktype_arg : option Z)
| Frame (data : bytes).

(** The exception a failing write raises in each class. *)
Inductive io_exn : Type :=
| BrokenPipeError
| PywintypesError.

(** Observable effects, in the order they happen. [EWrite c ok] is one
    [write(c); flush()] (or [WriteFile]) that either completed ([ok]) or
    raised. *)
Inductive event : Type :=
| EWrite (c : chunk) (ok : bool)
| ESleep
| ESetCancel
| EJoin
| ERemove (found : bool)
| ELogError
| ESysExit (code : Z).

(** The attributes of the [Fifo] object that the worker, the producer and
    [stop] read or assign. *)
Record obj : Type := mkObj {
  fifo_recv_cancel : bool;
  fifo_need_header : bool;
  fifo_packet : option bytes;
  last_packet : option bytes;
  linktype : Z
}.

(** Where the thread executing [run] is. *)
Inductive phase : Type :=
| Started      (* thread started, [run] has not executed yet *)
| Draining     (* inside [while not self.fifo_recv_cancel] *)
| Finished.    (* [run] has returned *)

(** Where the thread executing [stop] is. *)
Inductive stop_pc : Type :=
| NotCalled
| Joining      (* flag set, blocked in [self.join()] *)
| Removing     (* joined, about to [os.remove(self.fifo_path)] *)
| Returned
| Exited (code : Z).   (* [sys.exit(code)] raised out of [stop] *)

Record world : Type := mkWorld {
  self : obj;
  fifo_present : bool;    (* the special file exists *)
  worker : phase;
  stopper : stop_pc;
  log : list event
}.

Definition set_cancel (b : bool) (o : obj) : obj :=
  mkObj b (fifo_need_header o) (fifo_packet o) (last_packet o) (linktype o).
Definition set_need_header (b : bool) (o : obj) : obj :=
  mkObj (fifo_recv_cancel o) b (fifo_packet o) (last_packet o) (linktype o).
Definition set_packet (p : option bytes) (o : obj) : obj :=
  mkObj (fifo_recv_cancel o) (fifo_need_header o) p (last_packet o) (linktype o).
Definition set_last (p : option bytes) (o : obj) : obj :=
  mkObj (fifo_recv_cancel o) (fifo_need_header o) (fifo_packet o) p (linktype o).

Definition upd (f : obj -> obj) (w : world) : world :=
  mkWorld (f (self w)) (fifo_present w) (worker w) (stopper w) (log w).
Definition set_present (b : bool) (w : world) : world :=
  mkWorld (self w) b (worker w) (stopper w) (log w).
Definition set_worker (p : phase) (w : world) : world :=
  mkWorld (self w) (fifo_present w) p (stopper w) (log w).
Definition set_stopper (p : stop_pc) (w : world) : world :=
  mkWorld (self w) (fifo_present w) (worker w) p (log w).
Definition emit (e : event) (w : world) : world :=
  mkWorld (self w) (fifo_present w) (worker w) (stopper w) (log w ++ [e]).

(** [Fifo.__init__] followed by [start()]: the thread exists, [run] has
    not executed yet. [lt] is [LINKTYPE_IEEE802_15_4_NOFCS], a constant of
    the absent [Definitions] module. *)
Definition init (lt : Z) : world :=
  mkWorld (mkObj false true None None lt) false Started NotCalled [].

(** Truth value of [self.fifo_packet]: [None] and [b""] are false. *)
Definition truthy (p : option bytes) : bool :=
  match p with
  | Some (_ :: _) => true
  | _ => false
  end.

Fixpoint bytes_eqb (a b : bytes) : bool :=
  match a, b with
  | [], [] => true
  | x :: a', y :: b' => Byte.eqb x y && bytes_eqb a' b'
  | _, _ => false
  end.

(** [self.fifo_packet != self.last_packet] *)
Definition differs (p q : option bytes) : bool :=
  match p, q with
  | None, None => false
  | Some a, Some b => negb (bytes_eqb a b)
  | _, _ => true
  end.

(** Statements of the loop body: they change the world and may raise. *)
Definition M (A : Type) : Type := world -> world * (A + io_exn).

Definition ret {A : Type} (a : A) : M A := fun w => (w, inl a).

Definition andthen {A B : Type} (m : M A) (k : A -> M B) : M B :=
  fun w => match m w with
           | (w', inl a) => k a w'
           | (w', inr e) => (w', inr e)
           end.

Definition assign (f : obj -> obj) : M unit := fun w => (upd f w, inl tt).

Definition io_error (v : variant) : io_exn :=
  match v with
  | Linux => BrokenPipeError
  | Windows => PywintypesError
  end.

(** [self.fifo_worker.write(c); self.fifo_worker.flush()] on Linux,
    [win32file.WriteFile(self.fifo_worker, c)] on Windows. *)
Definition write (v : variant) (ok : bool) (c : chunk) : M unit :=
  fun w => (emit (EWrite c ok) w, if ok then inl tt else inr (io_error v)).

(** Modelled from the spec: [Pcap.get_global_header] belongs to a module
    that is not part of the sources; the header is kept as the call made.
    Linux passes [self.linktype], Windows calls it without argument. *)
Definition get_global_header (v : variant) (o : obj) : chunk :=
  match v with
  | Linux => GlobalHeader (Some (linktype o))
  | Windows => GlobalHeader None
  end.

Definition packet_bytes (p : option bytes) : bytes :=
  match p with
  | Some d => d
  | None => []
  end.

(** The body of [while not self.fifo_recv_cancel:] in [run], one pass.
    [hdr_ok] and [pkt_ok] are the outcomes of the header write and of the
    packet write, should the pass reach them. *)
Definition loop_body (v : variant) (hdr_ok pkt_ok : bool) : M unit :=
  fun w =>
    if truthy (fifo_packet (self w)) then
      if differs (fifo_packet (self w)) (last_packet (self w)) then
        andthen (if fifo_need_header (self w)
             then andthen (write v hdr_ok (get_global_header v (self w)))
                      (fun _ => assign (set_need_header false))
             else ret tt)
            (fun _ =>
        andthen (fun w1 => write v pkt_ok
                         (Frame (packet_bytes (fifo_packet (self w1)))) w1)
            (fun _ =>
        andthen (fun w2 => assign (set_last (fifo_packet (self w2))) w2)
            (fun _ => assign (set_packet None)))) w
      else ret tt w
    else (emit ESleep w, inl tt).

(** One turn of the thread executing [run]. On Linux the [try] is inside
    the loop and [except BrokenPipeError: pass] resumes it; on Windows the
    [try] encloses the loop, so an exception ends [run]. *)
Definition worker_turn (v : variant) (hdr_ok pkt_ok : bool) (w : world)
  : world :=
  match worker w with
  | Started =>
      (* self.fifo_recv_cancel = False; self.open() creates the pipe *)
      let w1 := upd (set_cancel false) w in
      let w2 := match v with
                | Linux => set_present true w1
                | Windows => w1
                end in
      set_worker Draining w2
  | Draining =>
      if fifo_recv_cancel (self w) then set_worker Finished w
      else match loop_body v hdr_ok pkt_ok w, v with
           | (w', inl _), _ => w'
           | (w', inr _), Linux => w'
           | (w', inr _), Windows => set_worker Finished w'
           end
  | Finished => w
  end.

(** One turn of the thread executing [stop]. [self.join()] returns only
    once [run] has returned; until then the turn does nothing. *)
Definition stop_turn (v : variant) (w : world) : world :=
  match stopper w with
  | NotCalled =>
      let w1 := emit ESetCancel (upd (set_cancel true) w) in
      let w2 := match v with
                | Linux => w1                       (* self.fifo_data = [] *)
                | Windows => upd (set_packet None) w1
                end in
      set_stopper Joining w2
  | Joining =>
      match worker w with
      | Finished =>
          set_stopper (match v with Linux => Removing | Windows => Returned end)
                      (emit EJoin w)
      | _ => w
      end
  | Removing =>
      if fifo_present w
      then set_stopper Returned (emit (ERemove true) (set_present false w))
      else set_stopper (Exited 0)
             (emit (ESysExit 0) (emit ELogError (emit (ERemove false) w)))
  | Returned => w
  | Exited _ => w
  end.

(** [add_data]: a single assignment to the slot. *)
Definition add_data (data : bytes) (w : world) : world :=
  upd (set_packet (Some data)) w.

(** What the threads and the surroundings can do next. *)
Inductive action : Type :=
| AddData (data : bytes)            (* the producer calls [add_data] *)
| Worker (hdr_ok pkt_ok : bool)     (* a turn of the [run] thread *)
| Stop                              (* a turn of the [stop] thread *)
| Unlink.                           (* somebody else removes the file *)

Definition step (v : variant) (w : world) (a : action) : world :=
  match a with
  | AddData data => add_data data w
  | Worker hdr_ok pkt_ok => worker_turn v hdr_ok pkt_ok w
  | Stop => stop_turn v w
  | Unlink => set_present false w
  end.

(** An execution is a schedule of actions, performed left to right. A
    turn of the worker is one whole pass of the loop (or the entry into
    it, or the exit from it): the assignments of the producer and of
    [stop] fall between passes. *)
Definition exec (v : variant) (sched : list action) (w : world) : world :=
  fold_left (step v) sched w.

(** The chunks whose write completed, and those that were attempted. *)
Fixpoint written (l : list event) : list chunk :=
  match l with
  | [] => []
  | EWrite c true :: l' => c :: written l'
  | _ :: l' => written l'
  end.

Fixpoint attempted (l : list event) : list chunk :=
  match l with
  | [] => []
  | EWrite c _ :: l' => c :: attempted l'
  | _ :: l' => attempted l'
  end.

Definition is_header (c : chunk) : bool :=
  match c with
  | GlobalHeader _ => true
  | Frame _ => false
  end.


Definition headers (l : list chunk) : nat :=
  List.length (filter is_header l).

(** The effects of [stop], in order. *)
Definition is_stop_event (e : event) : bool :=
  match e with
  | ESetCancel | EJoin | ERemove _ | ELogError | ESysExit _ => true
  | _ => false
  end.

Definition stop_trace (l : list event) : list event := filter is_stop_event l.

(** The effects of the worker, in order. *)
Definition worker_trace (l : list event) : list event :=
  filter (fun e => negb (is_stop_event e)) l.


(** The five ways one pass of the loop body can go. *)
Inductive pass (v : variant) (hdr_ok pkt_ok : bool) (w : world)
  : world * (unit + io_exn) -> Prop :=
| pass_idle :
    truthy (fifo_packet (self w)) = false ->
    pass v hdr_ok pkt_ok w (emit ESleep w, inl tt)
| pass_duplicate :
    truthy (fifo_packet (self w)) = true ->
    differs (fifo_packet (self w)) (last_packet (self w)) = false ->
    pass v hdr_ok pkt_ok w (w, inl tt)
| pass_header_failed :
    truthy (fifo_packet (self w)) = true ->
    differs (fifo_packet (self w)) (last_packet (self w)) = true ->
    fifo_need_header (self w) = true ->
    hdr_ok = false ->
    pass v hdr_ok pkt_ok w
      (emit (EWrite (get_global_header v (self w)) false) w, inr (io_error v))
| pass_frame_failed (w1 : world) :
    truthy (fifo_packet (self w)) = true ->
    differs (fifo_packet (self w)) (last_packet (self w)) = true ->
    (fifo_need_header (self w) = true /\ hdr_ok = true /\
     w1 = upd (set_need_header false)
            (emit (EWrite (get_global_header v (self w)) true) w)
     \/ fifo_need_header (self w) = false /\ w1 = w) ->
    pkt_ok = false ->
    pass v hdr_ok pkt_ok w
      (emit (EWrite (Frame (packet_bytes (fifo_packet (self w)))) false) w1,
       inr (io_error v))
| pass_frame_written (w1 : world) :
    truthy (fifo_packet (self w)) = true ->
    differs (fifo_packet (self w)) (last_packet (self w)) = true ->
    (fifo_need_header (self w) = true /\ hdr_ok = true /\
     w1 = upd (set_need_header false)
            (emit (EWrite (get_global_header v (self w)) true) w)
     \/ fifo_need_header (self w) = false /\ w1 = w) ->
    pkt_ok = true ->
    pass v hdr_ok pkt_ok w
      (upd (set_packet None)
         (upd (set_last (fifo_packet (self w)))
            (emit (EWrite (Frame (packet_bytes (fifo_packet (self w)))) true) w1)),
       inl tt).

(** Where [stop] is determines which of its effects have happened, and
    past the join the worker has returned. *)
Definition stop_inv (w : world) : Prop :=
  match stopper w with
  | NotCalled => stop_trace (log w) = []
  | Joining => stop_trace (log w) = [ESetCancel]
  | Removing =>
      stop_trace (log w) = [ESetCancel; EJoin] /\ worker w = Finished
  | Returned =>
      stop_trace (log w) = [ESetCancel; EJoin; ERemove true]
      /\ worker w = Finished
  | Exited code =>
      code = 0
      /\ stop_trace (log w) =
           [ESetCancel; EJoin; ERemove false; ELogError; ESysExit 0]
      /\ worker w = Finished
  end.

(** On Linux, [run] returns only with the flag set, and the flag is set
    only by [stop]. *)
Definition cancel_inv (w : world) : Prop :=
  (worker w = Finished -> fifo_recv_cancel (self w) = true)
  /\ (fifo_recv_cancel (self w) = true -> In ESetCancel (log w)).


End Fifo.

(** ** Protocols.py: the other channel lookups *)

(** What [get_channel_range_bytes] returns: the matching pair itself, or
    the int [0] when no pair matches. *)
Inductive pair_or_zero : Type :=
| ChannelPair (c : Z) (f : num)
| IntZero.

Fixpoint lookup_channel_pair (l : list (Z * num)) (channel : Z)
  : pair_or_zero :=
  match l with
  | [] => IntZero
  | (i, f) :: rest =>
      if i =? channel then ChannelPair i f else lookup_channel_pair rest channel
  end.

Definition get_channel_range_bytes (self : Protocol) (channel : Z)
  : pair_or_zero :=
  lookup_channel_pair (channel_range self) channel.

(** [get_frequency_by_channel]: the frequency of the first matching pair,
    or the int [0]. *)
Fixpoint lookup_frequency (l : list (Z * num)) (channel : Z) : num :=
  match l with
  | [] => PyInt 0
  | (i, f) :: rest =>
      if i =? channel then f else lookup_frequency rest channel
  end.

Definition get_frequency_by_channel (self : Protocol) (channel : Z) : num :=
  lookup_frequency (channel_range self) channel.

(** ** Fifo.py: further operations and observations *)

Module FifoObs.
Import Fifo.

(** [set_linktype] *)
Definition set_linktype (lt : Z) (w : world) : world :=
  upd (fun o => mkObj (fifo_recv_cancel o) (fifo_need_header o)
                      (fifo_packet o) (last_packet o) lt) w.

(** The header each class asks for when the link type is [lt]. *)
Definition header_for (v : variant) (lt : Z) : chunk :=
  match v with
  | Linux => GlobalHeader (Some lt)
  | Windows => GlobalHeader None
  end.

(** After [stop] has set the flag on a worker that had not begun. *)
Definition stuck (w : world) : Prop :=
  stopper w = Joining
  /\ (worker w = Started
      \/ worker w = Draining /\ fifo_recv_cancel (self w) = false).

(** Once [stop] has ended, the special file is gone. *)
Definition released (w : world) : Prop :=
  (stopper w = Returned \/ exists c, stopper w = Exited c) ->
  fifo_present w = false /\ worker w = Finished.

End FifoObs.

(** ** Fifo.py statement by statement, with the buffered writer *)

(** [run] takes no lock: [add_data] and [stop] can act between any two of
    its statements. On Linux [open(path, "ab")] is a buffered writer:
    [write] appends to its buffer, [flush] hands the whole buffer to the
    pipe or raises and keeps it. On Windows [WriteFile] writes to the pipe
    directly or raises. Module [Fifo] above describes passes that nothing
    interrupts and the write calls they make; this module describes the
    single statements, under every interleaving, and what the pipe
    receives. *)
Module Stmt.
Import Fifo.

(** The statement [run] executes next (line numbers of [FifoLinux.run] /
    [FifoWindows.run]). *)
Inductive point : Type :=
| AtEntry          (* 63-65 / 139-141: clear the flag, open *)
| AtWhile          (* 66 / 142: while not self.fifo_recv_cancel *)
| AtIfPacket       (* 68 / 143: if self.fifo_packet *)
| AtIfDiffers      (* 69 / 144: if self.fifo_packet != self.last_packet *)
| AtIfHeader       (* 70 / 145: if self.fifo_need_header *)
| AtWriteHeader    (* 71 / 146: write the global header *)
| AtFlushHeader    (* 72: flush, Linux only *)
| AtClearHeader    (* 73 / 147: self.fifo_need_header = False *)
| AtWritePacket    (* 75 / 149: write self.fifo_packet *)
| AtFlushPacket    (* 76: flush, Linux only *)
| AtSetLast        (* 77 / 150: self.last_packet = self.fifo_packet *)
| AtClearPacket    (* 78 / 151: self.fifo_packet = None *)
| AtSleep          (* 81 / 154: time.sleep(0.01) *)
| RunReturned      (* [run] has returned *)
| RunDied.         (* an exception [run] does not catch ended the thread *)

(** The statement [stop] executes next. *)
Inductive halt_point : Type :=
| HaltNotCalled
| HaltFlagSet      (* flag set; next: fifo_data = [] / fifo_packet = None *)
| HaltJoining      (* in [self.join()] *)
| HaltRemoving     (* Linux: about to [os.remove] *)
| HaltReturned
| HaltExited (code : Z).

Record machine : Type := mkMachine {
  attrs : obj;
  at_point : point;
  buffer : list chunk;     (* written to the buffered writer, not flushed *)
  pipe : list chunk;       (* received by the pipe *)
  calls : list chunk;      (* every chunk handed to write / WriteFile *)
  halt_at : halt_point;
  file_present : bool
}.

Definition with_attrs (f : obj -> obj) (m : machine) : machine :=
  mkMachine (f (attrs m)) (at_point m) (buffer m) (pipe m) (calls m)
            (halt_at m) (file_present m).
Definition goto (p : point) (m : machine) : machine :=
  mkMachine (attrs m) p (buffer m) (pipe m) (calls m)
            (halt_at m) (file_present m).
Definition with_halt (h : halt_point) (m : machine) : machine :=
  mkMachine (attrs m) (at_point m) (buffer m) (pipe m) (calls m)
            h (file_present m).
Definition with_file (b : bool) (m : machine) : machine :=
  mkMachine (attrs m) (at_point m) (buffer m) (pipe m) (calls m)
            (halt_at m) b.

(** [self.fifo_worker.write(c)] on Linux: into the buffer (a chunk is taken
    to fit the buffer, so that [write] itself does not flush). *)
Definition buffered_write (c : chunk) (m : machine) : machine :=
  mkMachine (attrs m) (at_point m) (buffer m ++ [c]) (pipe m)
            (calls m ++ [c]) (halt_at m) (file_present m).

(** [self.fifo_worker.flush()] that completes: the buffer goes to the
    pipe. A flush that raises leaves the machine as it is. *)
Definition flushed (m : machine) : machine :=
  mkMachine (attrs m) (at_point m) [] (pipe m ++ buffer m)
            (calls m) (halt_at m) (file_present m).

(** [win32file.WriteFile(self.fifo_worker, c)]: to the pipe if it
    completes, nowhere if it raises. *)
Definition write_file (ok : bool) (c : chunk) (m : machine) : machine :=
  mkMachine (attrs m) (at_point m) (buffer m)
            (if ok then pipe m ++ [c] else pipe m)
            (calls m ++ [c]) (halt_at m) (file_present m).

Definition init (lt : Z) : machine :=
  mkMachine (mkObj false true None None lt) AtEntry [] [] []
            HaltNotCalled false.

(** One statement of [run]. [ok] is the outcome of the statement when it is
    a [flush] or a [WriteFile]. On Linux [BrokenPipeError] is caught inside
    the loop, which resumes at its test; on Windows [pywintypes.error] is
    caught outside the loop and [run] returns. Writing [None] raises a
    [TypeError], which neither catches. *)
Definition run_stmt (v : variant) (ok : bool) (m : machine) : machine :=
  match at_point m with
  | AtEntry =>
      let m1 := with_attrs (set_cancel false) m in
      goto AtWhile (match v with
                    | Linux => with_file true m1
                    | Windows => m1
                    end)
  | AtWhile =>
      if fifo_recv_cancel (attrs m) then goto RunReturned m
      else goto AtIfPacket m
  | AtIfPacket =>
      if truthy (fifo_packet (attrs m)) then goto AtIfDiffers m
      else goto AtSleep m
  | AtIfDiffers =>
      if differs (fifo_packet (attrs m)) (last_packet (attrs m))
      then goto AtIfHeader m
      else goto AtWhile m
  | AtIfHeader =>
      if fifo_need_header (attrs m) then goto AtWriteHeader m
      else goto AtWritePacket m
  | AtWriteHeader =>
      match v with
      | Linux =>
          goto AtFlushHeader
               (buffered_write (get_global_header v (attrs m)) m)
      | Windows =>
          goto (if ok then AtClearHeader else RunReturned)
               (write_file ok (get_global_header v (attrs m)) m)
      end
  | AtFlushHeader =>
      if ok then goto AtClearHeader (flushed m) else goto AtWhile m
  | AtClearHeader =>
      goto AtWritePacket (with_attrs (set_need_header false) m)
  | AtWritePacket =>
      match fifo_packet (attrs m) with
      | None => goto RunDied m
      | Some d =>
          match v with
          | Linux => goto AtFlushPacket (buffered_write (Frame d) m)
          | Windows =>
              goto (if ok then AtSetLast else RunReturned)
                   (write_file ok (Frame d) m)
          end
      end
  | AtFlushPacket =>
      if ok then goto AtSetLast (flushed m) else goto AtWhile m
  | AtSetLast =>
      goto AtClearPacket
           (with_attrs (set_last (fifo_packet (attrs m))) m)
  | AtClearPacket => goto AtWhile (with_attrs (set_packet None) m)
  | AtSleep => goto AtWhile m
  | RunReturned => m
  | RunDied => m
  end.

Definition terminated (p : point) : bool :=
  match p with
  | RunReturned | RunDied => true
  | _ => false
  end.

(** One statement of [stop]; in [join] it waits for the thread to end. *)
Definition halt_stmt (v : variant) (m : machine) : machine :=
  match halt_at m with
  | HaltNotCalled => with_halt HaltFlagSet (with_attrs (set_cancel true) m)
  | HaltFlagSet =>
      with_halt HaltJoining
                (match v with
                 | Linux => m                        (* self.fifo_data = [] *)
                 | Windows => with_attrs (set_packet None) m
                 end)
  | HaltJoining =>
      if terminated (at_point m)
      then with_halt (match v with
                      | Linux => HaltRemoving
                      | Windows => HaltReturned
                      end) m
      else m
  | HaltRemoving =>
      if file_present m
      then with_halt HaltReturned (with_file false m)
      else with_halt (HaltExited 0) m
  | HaltReturned => m
  | HaltExited _ => m
  end.

Inductive action : Type :=
| Submit (data : bytes)     (* [add_data(data)] *)
| Run (ok : bool)           (* the next statement of [run] *)
| Halt                      (* the next statement of [stop] *)
| Unlink.                   (* somebody else removes the special file *)

Definition step (v : variant) (m : machine) (a : action) : machine :=
  match a with
  | Submit data => with_attrs (set_packet (Some data)) m
  | Run ok => run_stmt v ok m
  | Halt => halt_stmt v m
  | Unlink => with_file false m
  end.

Definition exec (v : variant) (sched : list action) (m : machine) : machine :=
  fold_left (step v) sched m.

(** The frames handed to [add_data] along a schedule, in order. *)
Definition submitted (sched : list action) : list bytes :=
  flat_map (fun a => match a with
                     | Submit d => [d]
                     | _ => []
                     end) sched.


(** How many more chunks [run] can hand to a write once the flag is set:
    those of the pass it is in. *)
Definition budget (p : point) : nat :=
  match p with
  | AtIfPacket | AtIfDiffers | AtIfHeader | AtWriteHeader => 2
  | AtFlushHeader | AtClearHeader | AtWritePacket => 1
  | _ => 0
  end.


(** Whatever was written or is pending was submitted. *)
Definition origin_inv (sched : list action) (m : machine) : Prop :=
  (forall d, fifo_packet (attrs m) = Some d -> In d (submitted sched))
  /\ (forall d, In (Frame d) (calls m) -> In d (submitted sched))
  /\ (forall c, In c (pipe m ++ buffer m) -> In c (calls m)).

End Stmt.

(** * Properties of the command encoder *)

Section Encoding.

Lemma to_bytes2_little_in_range (n : Z) :
  0 <= n < 65536 ->
  to_bytes2_little n = Ok [byte_of_Z n; byte_of_Z (n / 256)].
Proof.
  intros [Hlo Hhi]. unfold to_bytes2_little.
  apply Z.leb_le in Hlo. apply Z.ltb_lt in Hhi.
  now rewrite Hlo, Hhi.
Qed.

Lemma to_bytes2_little_out_of_range (n : Z) :
  n < 0 \/ 65536 <= n -> to_bytes2_little n = Raise OverflowError.
Proof.
  intros H. unfold to_bytes2_little.
  destruct (0 <=? n) eqn:Hlo; [|reflexivity].
  destruct (n <? 65536) eqn:Hhi; [|reflexivity].
  apply Z.leb_le in Hlo. apply Z.ltb_lt in Hhi. lia.
Qed.

(** The second component computed by the code is [0] for every input. *)
Lemma fractional_value_is_zero (frequency : channel_bytes) (i fr : Z) :
  calculate_fractional_frequency frequency = Ok (i, fr) -> fr = 0.
Proof.
  unfold calculate_fractional_frequency.
  destruct (py_int frequency) as [z|e]; simpl; [|discriminate].
  intros H. injection H as _ <-. lia.
Qed.

Lemma calculate_frequency_of_number (f : num) :
  0 <= int_of_num f < 65536 ->
  calculate_frequency (Freq f) =
    Ok [byte_of_Z (int_of_num f); byte_of_Z (int_of_num f / 256); x00; x00].
Proof.
  intros H. unfold calculate_frequency, calculate_fractional_frequency. simpl.
  rewrite (to_bytes2_little_in_range _ H). simpl.
  replace ((int_of_num f - int_of_num f) * CONST_FRECUENCY) with 0 by lia.
  reflexivity.
Qed.

Lemma calculate_frequency_overflow (f : num) :
  int_of_num f < 0 \/ 65536 <= int_of_num f ->
  calculate_frequency (Freq f) = Raise OverflowError.
Proof.
  intros H. unfold calculate_frequency, calculate_fractional_frequency. simpl.
  now rewrite (to_bytes2_little_out_of_range _ H).
Qed.

Lemma lookup_channel_absent (l : list (Z * num)) (channel : Z) :
  ~ In channel (map fst l) -> lookup_channel l channel = EmptyBytes.
Proof.
  induction l as [|[i f] rest IH]; simpl; intros Hn; [reflexivity|].
  destruct (Z.eqb_spec i channel) as [->|Hne].
  - exfalso. apply Hn. now left.
  - apply IH. intros Hin. apply Hn. now right.
Qed.

Lemma lookup_channel_present (l : list (Z * num)) (channel : Z) :
  In channel (map fst l) ->
  exists f, lookup_channel l channel = Freq f /\ In (channel, f) l.
Proof.
  induction l as [|[i f] rest IH]; simpl; intros Hin; [contradiction|].
  destruct (Z.eqb_spec i channel) as [->|Hne].
  - exists f. split; [reflexivity | now left].
  - destruct Hin as [Heq|Hin]; [contradiction|].
    destruct (IH Hin) as (g & Hg & Hing). exists g. split; [exact Hg | now right].
Qed.

Lemma encodableb_sound (self : Protocol) :
  encodableb self = true -> encodable self.
Proof.
  unfold encodableb, encodable. rewrite forallb_forall, Forall_forall.
  intros H cf Hin. specialize (H cf Hin).
  apply andb_true_iff in H as [Hlo Hhi].
  apply Z.leb_le in Hlo. apply Z.ltb_lt in Hhi. lia.
Qed.

Lemma registry_encodable (m : Member) :
  In m PROTOCOLSLIST -> encodable (value m).
Proof.
  intros Hin. apply encodableb_sound.
  simpl in Hin.
  destruct Hin as [<-|[<-|[<-|[<-|[]]]]]; reflexivity.
Qed.

Lemma cfg_frequency_known_channel (self : Protocol) (channel : Z) :
  encodable self ->
  In channel (list_channel_range self) ->
  exists f,
    get_channel_bytes self channel = Freq f /\
    command_cfg_frequency self channel =
      Ok (mkPacketCommand CMD_CFG_FREQUENCY
            [byte_of_Z (int_of_num f); byte_of_Z (int_of_num f / 256); x00; x00]).
Proof.
  intros Henc Hin.
  destruct (lookup_channel_present _ _ Hin) as (f & Hf & Hinf).
  exists f. split; [exact Hf|].
  unfold command_cfg_frequency, get_channel_bytes. rewrite Hf.
  unfold encodable in Henc. rewrite Forall_forall in Henc.
  rewrite (calculate_frequency_of_number f (Henc _ Hinf)). reflexivity.
Qed.

(** On an integral frequency that fits 16 bits the payload of the code is
    the payload the specification describes. *)
Lemma calculate_frequency_integral (z : Z) :
  0 <= z < 65536 ->
  calculate_frequency (Freq (PyFloat (inject_Z z))) =
    Ok (spec_frequency_payload (inject_Z z)).
Proof.
  intros H.
  assert (Hi : int_of_num (PyFloat (inject_Z z)) = z).
  { simpl. apply Z.quot_1_r. }
  rewrite calculate_frequency_of_number by (rewrite Hi; exact H).
  rewrite Hi. unfold spec_frequency_payload, spec_fractional_units.
  rewrite Qfloor_Z.
  assert (Hu : Qfloor ((inject_Z z - inject_Z z) * inject_Z 65536 + (1 # 2))%Q = 0).
  { assert (E : ((inject_Z z - inject_Z z) * inject_Z 65536 + (1 # 2) == 1 # 2)%Q) by ring.
    rewrite E. reflexivity. }
  rewrite Hu. reflexivity.
Qed.

(** C1. [command_cfg_frequency] on a channel of frequency 433.5 MHz: the
    code returns the payload [b1 01 00 00] (integer part 433, fractional
    field 0), whereas the payload described for it is [b1 01 00 80]
    (fractional field 32768). The code loses the fractional part. *)
Theorem cfg_frequency_433_5_drops_fraction :
  command_cfg_frequency PROTOCOL_433_5 0 =
    Ok (mkPacketCommand CMD_CFG_FREQUENCY [xb1; x01; x00; x00])
  /\ spec_frequency_payload (867 # 2) = [xb1; x01; x00; x80]
  /\ from_bytes_little [xb1; x01] = 433
  /\ from_bytes_little [x00; x00] = 0
  /\ from_bytes_little [x00; x80] = 32768.
Proof. repeat split; reflexivity. Qed.

(** C2, as stated, fails: on a channel index that the descriptor does not
    have, [command_startup] raises and returns no list at all; nor does it
    return one on a channel whose frequency does not fit the two bytes of
    the integer field, where [to_bytes] raises. *)
Lemma command_startup_ble_channel_0_raises :
  ~ In 0 (list_channel_range PROTOCOL_BLE)
  /\ command_startup PROTOCOL_BLE 0 = Raise ValueError
  /\ ~ (exists cmds, command_startup PROTOCOL_BLE 0 = Ok cmds
                     /\ List.length cmds = 5%nat)
  /\ command_startup
       (mkProtocol [] EmptyString EmptyString (PyInt 0) (PyInt 0)
                   [(0, PyInt 70000)] 147 [] EmptyString) 0
     = Raise OverflowError.
Proof.
  split; [simpl; intros [H|[H|[H|[]]]]; discriminate H|].
  split; [reflexivity|].
  split; [|reflexivity].
  intros (cmds & H & _). discriminate H.
Qed.

(** C2, amended. For every descriptor and every channel index of its
    channel set, when the integer part of the frequency of that channel
    fits the 16-bit integer field, [command_startup] returns exactly the
    five commands ping, stop, configure-PHY, configure-frequency of that
    channel, start, in this order, and when it does not fit it raises
    [OverflowError]; for a channel index that is not in the channel set it
    raises [ValueError] and returns no list. *)
Theorem command_startup_five_in_order (self : Protocol) (channel : Z) :
  (In channel (list_channel_range self) ->
     exists f,
       get_channel_bytes self channel = Freq f
       /\ (0 <= int_of_num f < 65536 ->
             exists c_freq,
               command_cfg_frequency self channel = Ok c_freq
               /\ opcode c_freq = CMD_CFG_FREQUENCY
               /\ command_startup self channel =
                    Ok [command_ping self; command_stop self;
                        command_cfg_phy self; c_freq; command_start self])
       /\ (int_of_num f < 0 \/ 65536 <= int_of_num f ->
             command_startup self channel = Raise OverflowError))
  /\ (~ In channel (list_channel_range self) ->
        command_startup self channel = Raise ValueError).
Proof.
  split.
  - intros Hin.
    destruct (lookup_channel_present _ _ Hin) as (f & Hf & _).
    exists f. split; [exact Hf|].
    unfold command_startup, command_cfg_frequency, get_channel_bytes.
    rewrite Hf. split.
    + intros Hr. rewrite (calculate_frequency_of_number f Hr).
      eexists. split; [reflexivity|]. split; reflexivity.
    + intros Hr. rewrite (calculate_frequency_overflow f Hr). reflexivity.
  - intros Hn. unfold command_startup, command_cfg_frequency, get_channel_bytes.
    rewrite (lookup_channel_absent _ _ Hn). reflexivity.
Qed.

Lemma command_startup_five_in_order_witness :
  let self := mkProtocol [x12] EmptyString EmptyString (PyInt 0) (PyInt 0)
                         [(0, PyInt 433); (1, PyInt 70000)] 147 []
                         EmptyString in
  In 0 (list_channel_range self)
  /\ ~ In 5 (list_channel_range self)
  /\ (exists c_freq,
        command_cfg_frequency self 0 = Ok c_freq
        /\ opcode c_freq = CMD_CFG_FREQUENCY
        /\ command_startup self 0 =
             Ok [command_ping self; command_stop self; command_cfg_phy self;
                 c_freq; command_start self])
  /\ command_startup self 5 = Raise ValueError.
Proof.
  intros self.
  assert (Hi : In 0 (list_channel_range self)) by (simpl; tauto).
  assert (Hn : ~ In 5 (list_channel_range self)).
  { simpl. intros [H|[H|[]]]; discriminate H. }
  split; [exact Hi|]. split; [exact Hn|].
  destruct (command_startup_five_in_order self 0) as [Hp _].
  destruct (command_startup_five_in_order self 5) as [_ Ha].
  destruct (Hp Hi) as (f & Hf & Hok & _).
  assert (Ef : f = PyInt 433) by (vm_compute in Hf; now injection Hf).
  assert (Hr : 0 <= int_of_num f < 65536) by (rewrite Ef; simpl; lia).
  split; [exact (Hok Hr) | exact (Ha Hn)].
Defined.

(** C4. A channel index outside the descriptor's channel set makes
    [command_cfg_frequency] raise (the exception is [ValueError], from
    [int(b"")]): the caller gets the error and no command. The same holds
    for [command_startup], which calls it. *)
Theorem cfg_frequency_unknown_channel (self : Protocol) (channel : Z) :
  ~ In channel (list_channel_range self) ->
  get_channel_bytes self channel = EmptyBytes
  /\ command_cfg_frequency self channel = Raise ValueError
  /\ command_startup self channel = Raise ValueError.
Proof.
  intros Hn.
  assert (H : get_channel_bytes self channel = EmptyBytes)
    by (apply lookup_channel_absent; exact Hn).
  split; [exact H|].
  unfold command_startup, command_cfg_frequency. rewrite H.
  split; reflexivity.
Qed.

Lemma cfg_frequency_unknown_channel_witness :
  ~ In 11 (list_channel_range PROTOCOL_BLE)
  /\ get_channel_bytes PROTOCOL_BLE 11 = EmptyBytes
  /\ command_cfg_frequency PROTOCOL_BLE 11 = Raise ValueError
  /\ command_startup PROTOCOL_BLE 11 = Raise ValueError.
Proof.
  assert (Hn : ~ In 11 (list_channel_range PROTOCOL_BLE)).
  { simpl. intros [H|[H|[H|[]]]]; discriminate H. }
  split; [exact Hn|].
  exact (cfg_frequency_unknown_channel PROTOCOL_BLE 11 Hn).
Defined.

End Encoding.

(** * Properties of the registry lookup *)

Section Registry.

Lemma str_in_spec (s : string) (l : list string) :
  str_in s l = true <-> In s l.
Proof.
  unfold str_in. rewrite existsb_exists. split.
  - intros (x & Hin & Heq). apply String.eqb_eq in Heq. now subst.
  - intros Hin. exists s. split; [exact Hin | apply String.eqb_refl].
Qed.

Lemma find_by_name_spec (p : Protocol) (nm : string) :
  (In nm (common_names p) -> find_by_name p nm = Some p)
  /\ (~ In nm (common_names p) -> find_by_name p nm = None).
Proof.
  unfold find_by_name. destruct (str_in nm (common_names p)) eqn:E.
  - apply str_in_spec in E. split; [reflexivity | contradiction].
  - split; [|reflexivity]. intros Hin. apply str_in_spec in Hin. congruence.
Qed.

(** C6, as stated, fails: the name of the BLE descriptor is
    ["Bluetooth LE"], and resolving that name finds nothing. The loop
    compares [protocol.name], the name of the enumeration member
    ([PROTOCOL_BLE]), not the [name] attribute of the descriptor. *)
Lemma resolve_descriptor_name_not_found :
  name PROTOCOL_BLE = "Bluetooth LE"%string
  /\ In (mkMember "PROTOCOL_BLE" PROTOCOL_BLE) PROTOCOLSLIST
  /\ get_protocol_by_name "Bluetooth LE" = None.
Proof. split; [reflexivity|]. split; [now left | reflexivity]. Qed.

(** C6, amended. Resolution by name is an exact (case-sensitive) match
    against the name of a registry member or against one of the common
    names of its descriptor; the first member that matches, in registry
    order, wins and its descriptor is returned; without a match the result
    is [None]. In the registry, ["ble"], ["bluetooth"] and ["bluetoothle"]
    resolve to the same BLE descriptor, ["PROTOCOL_BLE"] to the BLE
    member, and ["nonexistent"] and ["BLE"] to nothing. *)
Theorem resolve_first_member_or_alias (cls : list Member) (nm : string) :
  match get_protocol_by_name_in cls nm with
  | Some r =>
      exists before m after,
        cls = before ++ m :: after
        /\ descriptor_of r = value m
        /\ answers nm m
        /\ (forall m', In m' before -> ~ answers nm m')
  | None => forall m, In m cls -> ~ answers nm m
  end
  /\ get_protocol_by_name "ble" = Some (ByValue PROTOCOL_BLE)
  /\ get_protocol_by_name "bluetooth" = Some (ByValue PROTOCOL_BLE)
  /\ get_protocol_by_name "bluetoothle" = Some (ByValue PROTOCOL_BLE)
  /\ get_protocol_by_name "PROTOCOL_BLE" =
       Some (ByMember (mkMember "PROTOCOL_BLE" PROTOCOL_BLE))
  /\ get_protocol_by_name "nonexistent" = None
  /\ get_protocol_by_name "BLE" = None.
Proof.
  split; [|repeat split; reflexivity].
  induction cls as [|protocol rest IH]; simpl.
  - intros m [].
  - destruct (String.eqb (member_name protocol) nm) eqn:En.
    + apply String.eqb_eq in En.
      exists [], protocol, rest. repeat split.
      * now left.
      * intros m' [].
    + assert (Hn : member_name protocol <> nm)
        by (intros H; apply String.eqb_neq in En; contradiction).
      unfold find_by_name.
      destruct (str_in nm (common_names (value protocol))) eqn:Ea.
      * apply str_in_spec in Ea.
        exists [], protocol, rest. repeat split.
        -- now right.
        -- intros m' [].
      * assert (Hna : ~ answers nm protocol).
        { intros [H|H]; [contradiction|].
          apply str_in_spec in H. congruence. }
        destruct (get_protocol_by_name_in rest nm) as [r|].
        -- destruct IH as (before & m & after & Hcls & Hd & Hm & Hb).
           exists (protocol :: before), m, after. repeat split.
           ++ simpl. now rewrite Hcls.
           ++ exact Hd.
           ++ exact Hm.
           ++ intros m' [<-|Hin]; [exact Hna | now apply Hb].
        -- intros m [<-|Hin]; [exact Hna | now apply IH].
Qed.

End Registry.

(** * Properties of the FIFO worker *)

Module FifoFacts.
Import Fifo.

Lemma written_app (l1 l2 : list event) :
  written (l1 ++ l2) = written l1 ++ written l2.
Proof.
  induction l1 as [|e l1 IH]; simpl; [reflexivity|].
  destruct e as [c [|]| | | | | |]; simpl; now rewrite ?IH.
Qed.

Lemma attempted_app (l1 l2 : list event) :
  attempted (l1 ++ l2) = attempted l1 ++ attempted l2.
Proof.
  induction l1 as [|e l1 IH]; simpl; [reflexivity|].
  destruct e; simpl; now rewrite ?IH.
Qed.

Lemma stop_trace_app (l1 l2 : list event) :
  stop_trace (l1 ++ l2) = stop_trace l1 ++ stop_trace l2.
Proof. apply filter_app. Qed.

Lemma worker_trace_app (l1 l2 : list event) :
  worker_trace (l1 ++ l2) = worker_trace l1 ++ worker_trace l2.
Proof. apply filter_app. Qed.

Lemma bytes_eqb_refl (a : bytes) : bytes_eqb a a = true.
Proof.
  induction a as [|x a IH]; simpl; [reflexivity|].
  rewrite IH, andb_true_r. apply Byte.byte_dec_lb. reflexivity.
Qed.


(** [!=] on two frames is inequality of their bytes. *)
Lemma differs_frames (a b : bytes) :
  differs (Some a) (Some b) = false <-> a = b.
Proof.
  simpl. rewrite negb_false_iff. split.
  - revert b. induction a as [|x a IH]; intros [|y b] H; simpl in H;
      try discriminate; [reflexivity|].
    apply andb_true_iff in H as [Hx Hr].
    apply Byte.byte_dec_bl in Hx. subst. f_equal. now apply IH.
  - intros <-. apply bytes_eqb_refl.
Qed.

(** A property kept by every action holds along every schedule. *)
Lemma exec_invariant (v : variant) (P : world -> Prop) :
  (forall w a, P w -> P (step v w a)) ->
  forall sched w, P w -> P (exec v sched w).
Proof.
  intros Hstep sched. induction sched as [|a sched IH]; intros w Hw.
  - exact Hw.
  - simpl. apply IH. now apply Hstep.
Qed.

Lemma loop_body_pass (v : variant) (hdr_ok pkt_ok : bool) (w : world) :
  pass v hdr_ok pkt_ok w (loop_body v hdr_ok pkt_ok w).
Proof.
  unfold loop_body.
  destruct (truthy (fifo_packet (self w))) eqn:Ht; [|now constructor].
  destruct (differs (fifo_packet (self w)) (last_packet (self w))) eqn:Hd;
    [|now constructor].
  destruct (fifo_need_header (self w)) eqn:Hn.
  - destruct hdr_ok; [|now apply pass_header_failed].
    destruct pkt_ok.
    + apply (pass_frame_written v true true w
               (upd (set_need_header false)
                  (emit (EWrite (get_global_header v (self w)) true) w)));
        auto.
    + apply (pass_frame_failed v true false w
               (upd (set_need_header false)
                  (emit (EWrite (get_global_header v (self w)) true) w)));
        auto.
  - destruct pkt_ok.
    + apply (pass_frame_written v hdr_ok true w w); auto.
    + apply (pass_frame_failed v hdr_ok false w w); auto.
Qed.

(** One pass of the loop body leaves the flag, the file and both program
    points alone, and adds worker events only. *)
Lemma loop_body_frame (v : variant) (h p : bool) (w : world) :
  let w' := fst (loop_body v h p w) in
  fifo_recv_cancel (self w') = fifo_recv_cancel (self w)
  /\ fifo_present w' = fifo_present w
  /\ worker w' = worker w
  /\ stopper w' = stopper w
  /\ exists l, log w' = log w ++ l /\ stop_trace l = [].
Proof.
  destruct (loop_body_pass v h p w) as
    [Ht | Ht Hd | Ht Hd Hn Hh | w1 Ht Hd Hw1 Hp | w1 Ht Hd Hw1 Hp]; simpl.
  - repeat split. now exists [ESleep].
  - repeat split. exists []. now rewrite app_nil_r.
  - repeat split. now eexists [_].
  - destruct Hw1 as [(Hn & _ & ->)|(Hn & ->)]; simpl; repeat split.
    + eexists [_; _]. now rewrite <- app_assoc.
    + now eexists [_].
  - destruct Hw1 as [(Hn & _ & ->)|(Hn & ->)]; simpl; repeat split.
    + eexists [_; _]. now rewrite <- app_assoc.
    + now eexists [_].
Qed.

Lemma worker_turn_frame (v : variant) (h p : bool) (w : world) :
  let w' := worker_turn v h p w in
  stopper w' = stopper w
  /\ (exists l, log w' = log w ++ l /\ stop_trace l = [])
  /\ (worker w = Finished -> w' = w).
Proof.
  unfold worker_turn. destruct (worker w) eqn:Hw; simpl.
  - destruct v; simpl; repeat split; try discriminate;
      exists []; now rewrite app_nil_r.
  - destruct (fifo_recv_cancel (self w)); simpl.
    + repeat split; try discriminate. exists []. now rewrite app_nil_r.
    + destruct (loop_body_frame v h p w) as (_ & _ & _ & Hs & Hl).
      destruct (loop_body v h p w) as [w' [u|e]]; simpl in *.
      * repeat split; auto; discriminate.
      * destruct v; simpl; repeat split; auto; discriminate.
  - repeat split. exists []. now rewrite app_nil_r.
Qed.

Lemma stop_inv_step (w : world) (a : action) :
  stop_inv w -> stop_inv (step Linux w a).
Proof.
  intros H. destruct a as [d | h p | |]; simpl.
  - exact H.
  - destruct (worker_turn_frame Linux h p w) as (Hs & (l & Hl & Hst) & Hf).
    unfold stop_inv in *. rewrite Hs, Hl, stop_trace_app, Hst, app_nil_r.
    destruct (stopper w); auto.
    + destruct H as [H1 H2]. rewrite (Hf H2). auto.
    + destruct H as [H1 H2]. rewrite (Hf H2). auto.
    + destruct H as (H0 & H1 & H2). rewrite (Hf H2). auto.
  - unfold stop_inv, stop_turn in *. destruct (stopper w) eqn:Hs; simpl.
    + rewrite stop_trace_app, H. reflexivity.
    + destruct (worker w) eqn:Hw; simpl; rewrite ?Hs; try exact H.
      rewrite stop_trace_app, H. split; [reflexivity | exact Hw].
    + destruct H as [H1 H2].
      destruct (fifo_present w); simpl;
        rewrite ?stop_trace_app, H1; repeat split; auto.
    + rewrite Hs. exact H.
    + rewrite Hs. exact H.
  - exact H.
Qed.

Lemma stop_inv_exec (sched : list action) (lt : Z) :
  stop_inv (exec Linux sched (init lt)).
Proof.
  apply exec_invariant.
  - intros w a. apply stop_inv_step.
  - reflexivity.
Qed.

(** Once [run] has returned, nothing more is written or slept. *)
Lemma finished_is_final (v : variant) (sched : list action) (w : world) :
  worker w = Finished ->
  worker (exec v sched w) = Finished
  /\ worker_trace (log (exec v sched w)) = worker_trace (log w).
Proof.
  revert w. induction sched as [|a sched IH]; intros w Hw; [now split|].
  simpl.
  assert (Hstep : worker (step v w a) = Finished
                  /\ worker_trace (log (step v w a)) = worker_trace (log w)).
  { destruct a as [d | h p | |]; simpl.
    - now split.
    - destruct (worker_turn_frame v h p w) as (_ & _ & Hf).
      rewrite (Hf Hw). now split.
    - unfold stop_turn. destruct (stopper w); simpl.
      + destruct v; simpl; rewrite worker_trace_app; simpl;
          now rewrite app_nil_r.
      + rewrite Hw. destruct v; simpl; rewrite worker_trace_app; simpl;
          now rewrite app_nil_r.
      + destruct (fifo_present w); simpl;
          rewrite ?worker_trace_app; simpl; now rewrite ?app_nil_r.
      + now split.
      + now split.
    - now split. }
  destruct Hstep as [H1 H2].
  destruct (IH _ H1) as [H3 H4]. split; [exact H3 | now rewrite H4].
Qed.

Lemma cancel_inv_step (w : world) (a : action) :
  cancel_inv w -> cancel_inv (step Linux w a).
Proof.
  unfold cancel_inv. intros [H1 H2]. destruct a as [d | h p | |]; simpl.
  - split; assumption.
  - unfold worker_turn. destruct (worker w) eqn:Hw.
    + split; simpl; discriminate.
    + destruct (fifo_recv_cancel (self w)) eqn:Hc.
      * split; simpl; auto.
      * destruct (loop_body_frame Linux h p w) as (Hc' & _ & Hw' & _ & l & Hl & _).
        assert (E : (let (w', s) := loop_body Linux h p w in
                     match s with inl _ => w' | inr _ => w' end)
                    = fst (loop_body Linux h p w)).
        { destruct (loop_body Linux h p w) as [w' [u|e]]; reflexivity. }
        rewrite E. split.
        -- rewrite Hw', Hw. discriminate.
        -- rewrite Hc', Hc. discriminate.
    + split; auto.
  - unfold stop_turn. destruct (stopper w); simpl.
    + split; intros _; [reflexivity|]. apply in_or_app. right. now left.
    + destruct (worker w) eqn:Hw; simpl; rewrite ?Hw;
        try (split; [discriminate | exact H2]).
      split; [exact H1|]. intros Hc. apply in_or_app. left. auto.
    + destruct (fifo_present w); simpl; (split; [exact H1|]);
        intros Hc; repeat (apply in_or_app; left); auto.
    + split; assumption.
    + split; assumption.
  - split; assumption.
Qed.

Lemma cancel_inv_exec (sched : list action) (lt : Z) :
  cancel_inv (exec Linux sched (init lt)).
Proof.
  apply exec_invariant.
  - intros w a. apply cancel_inv_step.
  - split; simpl; discriminate.
Qed.

(** A pass that raises leaves the slot and [last_packet] as they were, and
    it raised while writing a pending frame that differs from the last. *)
Lemma loop_body_raised (v : variant) (h p : bool) (w : world) (e : io_exn) :
  snd (loop_body v h p w) = inr e ->
  let w' := fst (loop_body v h p w) in
  fifo_packet (self w') = fifo_packet (self w)
  /\ last_packet (self w') = last_packet (self w)
  /\ truthy (fifo_packet (self w)) = true
  /\ differs (fifo_packet (self w)) (last_packet (self w)) = true
  /\ e = io_error v.
Proof.
  destruct (loop_body_pass v h p w) as
    [Ht | Ht Hd | Ht Hd Hn Hh | w1 Ht Hd Hw1 Hp | w1 Ht Hd Hw1 Hp];
    simpl; intros He; try discriminate He.
  - injection He as <-. repeat split; auto.
  - injection He as <-.
    destruct Hw1 as [(Hn & _ & ->)|(Hn & ->)]; repeat split; auto.
Qed.

(** A pass on a pending frame that differs from the last, with both
    writes completing: the header if still due, then the frame. *)
Lemma loop_body_writes (v : variant) (w : world) :
  truthy (fifo_packet (self w)) = true ->
  differs (fifo_packet (self w)) (last_packet (self w)) = true ->
  let w' := fst (loop_body v true true w) in
  written (log w') =
    written (log w)
    ++ (if fifo_need_header (self w) then [get_global_header v (self w)] else [])
    ++ [Frame (packet_bytes (fifo_packet (self w)))]
  /\ fifo_packet (self w') = None
  /\ last_packet (self w') = fifo_packet (self w)
  /\ fifo_need_header (self w') = false
  /\ snd (loop_body v true true w) = inl tt.
Proof.
  intros Ht Hd.
  destruct (loop_body_pass v true true w) as
    [Ht' | Ht' Hd' | Ht' Hd' Hn Hh | w1 Ht' Hd' Hw1 Hp | w1 Ht' Hd' Hw1 Hp];
    simpl; try congruence.
  destruct Hw1 as [(Hn & _ & ->)|(Hn & ->)]; rewrite Hn; simpl;
    rewrite !written_app; simpl; rewrite <- ?app_assoc; repeat split; auto.
Qed.

Lemma worker_turn_draining (v : variant) (h p : bool) (w : world) :
  worker w = Draining -> fifo_recv_cancel (self w) = false ->
  worker_turn v h p w =
    match loop_body v h p w, v with
    | (w', inl _), _ => w'
    | (w', inr _), Linux => w'
    | (w', inr _), Windows => set_worker Finished w'
    end.
Proof. intros Hw Hc. unfold worker_turn. now rewrite Hw, Hc. Qed.

Lemma worker_turn_linux (h p : bool) (w : world) :
  worker w = Draining -> fifo_recv_cancel (self w) = false ->
  worker_turn Linux h p w = fst (loop_body Linux h p w).
Proof.
  intros Hw Hc. rewrite worker_turn_draining by assumption.
  destruct (loop_body Linux h p w) as [w' [u|e]]; reflexivity.
Qed.

(** A turn of the worker never attempts a write unless the slot holds a
    non-empty frame different from [last_packet]. *)
Lemma write_requires_difference (v : variant) (h p : bool) (w : world) :
  attempted (log (worker_turn v h p w)) <> attempted (log w) ->
  truthy (fifo_packet (self w)) = true
  /\ differs (fifo_packet (self w)) (last_packet (self w)) = true.
Proof.
  unfold worker_turn. destruct (worker w).
  - destruct v; simpl; congruence.
  - destruct (fifo_recv_cancel (self w)); [simpl; congruence|].
    destruct (loop_body_pass v h p w) as
      [Ht | Ht Hd | Ht Hd Hn Hh | w1 Ht Hd Hw1 Hp | w1 Ht Hd Hw1 Hp];
      try (intros _; now split).
    + simpl. rewrite attempted_app. simpl. rewrite app_nil_r. congruence.
    + destruct v; simpl; congruence.
  - congruence.
Qed.









(** C5, as stated, fails in its last part: when the special file is
    already absent at the removal, [stop] logs the error and then calls
    [sys.exit(0)]; it does not return to its caller, the process is
    ended. *)
Lemma stop_on_absent_file_exits :
  let w := exec Linux
             [Worker true true; Stop; Worker true true; Unlink; Stop; Stop]
             (init 147) in
  log w = [ESetCancel; EJoin; ERemove false; ELogError; ESysExit 0]
  /\ stopper w = Exited 0
  /\ stopper w <> Returned.
Proof. repeat split. discriminate. Qed.

(** C5, amended. In [FifoLinux], [stop] sets the cancellation flag, then
    waits in the join until [run] has returned, and only then removes the
    special file, so the file is never removed while the worker may still
    write: at the removal the worker has returned and nothing is written
    or slept afterwards. When the file is there it is removed and [stop]
    returns. When the file is already absent, the error is logged and
    [stop] ends in [sys.exit(0)] instead of returning. *)
Theorem stop_sets_flag_joins_then_removes (sched : list action) (lt : Z) :
  let w := exec Linux sched (init lt) in
  let w1 := stop_turn Linux w in
  (stopper w = NotCalled ->
     fifo_recv_cancel (self w1) = true
     /\ stopper w1 = Joining
     /\ fifo_present w1 = fifo_present w
     /\ log w1 = log w ++ [ESetCancel])
  /\ (stopper w = Joining ->
        (worker w <> Finished -> w1 = w)
        /\ (worker w = Finished ->
              stopper w1 = Removing
              /\ fifo_present w1 = fifo_present w
              /\ log w1 = log w ++ [EJoin]))
  /\ (stopper w = Removing ->
        worker w = Finished
        /\ fifo_recv_cancel (self w) = true
        /\ fifo_present w1 = false
        /\ (fifo_present w = true ->
              stopper w1 = Returned /\ log w1 = log w ++ [ERemove true])
        /\ (fifo_present w = false ->
              stopper w1 = Exited 0
              /\ log w1 = log w ++ [ERemove false; ELogError; ESysExit 0]))
  /\ stop_trace (log w) =
       match stopper w with
       | NotCalled => []
       | Joining => [ESetCancel]
       | Removing => [ESetCancel; EJoin]
       | Returned => [ESetCancel; EJoin; ERemove true]
       | Exited _ => [ESetCancel; EJoin; ERemove false; ELogError; ESysExit 0]
       end
  /\ (forall found, In (ERemove found) (log w) ->
        worker w = Finished
        /\ fifo_recv_cancel (self w) = true
        /\ forall later,
             worker_trace (log (exec Linux later w)) = worker_trace (log w))
  /\ (forall code, stopper w = Exited code ->
        code = 0 /\ In ELogError (log w) /\ In (ERemove false) (log w)).
Proof.
  intros w w1. pose proof (stop_inv_exec sched lt) as H.
  pose proof (cancel_inv_exec sched lt) as [Hc _].
  fold w in H, Hc. unfold stop_inv in H.
  assert (Hrem : forall found, In (ERemove found) (log w) ->
                               In (ERemove found) (stop_trace (log w))).
  { intros found Hi. apply filter_In. now split. }
  assert (Hout : forall e, In e (stop_trace (log w)) -> In e (log w)).
  { intros e Hi. apply filter_In in Hi. tauto. }
  unfold w1, stop_turn.
  destruct (stopper w) eqn:Hs.
  - split; [intros _; repeat split|].
    split; [intros E; discriminate E|].
    split; [intros E; discriminate E|].
    split; [exact H|]. rewrite H in Hrem.
    split; [intros found Hf; destruct (Hrem _ Hf)|].
    intros code E. discriminate E.
  - split; [intros E; discriminate E|].
    split.
    + intros _. split.
      * intros Hw. destruct (worker w); [reflexivity | reflexivity|].
        now contradiction Hw.
      * intros Hw. rewrite Hw. repeat split.
    + split; [intros E; discriminate E|].
      split; [exact H|]. rewrite H in Hrem.
      split; [intros found Hf; destruct (Hrem _ Hf) as [E|[]]; discriminate E|].
      intros code E. discriminate E.
  - destruct H as [H Hw].
    split; [intros E; discriminate E|].
    split; [intros E; discriminate E|].
    split.
    + intros _. split; [exact Hw|]. split; [exact (Hc Hw)|].
      destruct (fifo_present w) eqn:Ep; simpl; rewrite ?Ep.
      * split; [reflexivity|]. split; [intros _; split; reflexivity|].
        intros E. discriminate E.
      * split; [reflexivity|]. split; [intros E; discriminate E|].
        intros _. split; [reflexivity|].
        now rewrite <- !app_assoc.
    + split; [exact H|]. rewrite H in Hrem.
      split; [intros found Hf;
              destruct (Hrem _ Hf) as [E|[E|[]]]; discriminate E|].
      intros code E. discriminate E.
  - destruct H as [H Hw].
    split; [intros E; discriminate E|].
    split; [intros E; discriminate E|].
    split; [intros E; discriminate E|].
    split; [exact H|].
    split.
    + intros found _. split; [exact Hw|]. split; [exact (Hc Hw)|].
      intros later. now apply finished_is_final.
    + intros code' E. discriminate E.
  - destruct H as (-> & H & Hw).
    split; [intros E; discriminate E|].
    split; [intros E; discriminate E|].
    split; [intros E; discriminate E|].
    split; [exact H|].
    split.
    + intros found _. split; [exact Hw|]. split; [exact (Hc Hw)|].
      intros later. now apply finished_is_final.
    + intros code' E. injection E as <-. split; [reflexivity|].
      split; apply Hout; rewrite H; simpl; tauto.
Qed.

Lemma stop_sets_flag_joins_then_removes_witness :
  let w0 := exec Linux [Worker true true; AddData [x2a]] (init 147) in
  let w1 := exec Linux [Stop; Worker true true] w0 in
  let w2 := exec Linux [Stop] w1 in
  let w3 := exec Linux [Stop] w2 in
  stopper w0 = NotCalled
  /\ fifo_recv_cancel (self (stop_turn Linux w0)) = true
  /\ stopper w1 = Joining /\ worker w1 = Finished
  /\ stopper w2 = Removing /\ fifo_present w2 = true
  /\ stopper w3 = Returned /\ fifo_present w3 = false
  /\ log w3 = [ESetCancel; EJoin; ERemove true].
Proof.
  intros w0 w1 w2 w3.
  destruct (stop_sets_flag_joins_then_removes
              [Worker true true; AddData [x2a]] 147) as (H0 & _).
  destruct (stop_sets_flag_joins_then_removes
              [Worker true true; AddData [x2a]; Stop; Worker true true] 147)
    as (_ & H1 & _).
  destruct (stop_sets_flag_joins_then_removes
              [Worker true true; AddData [x2a]; Stop; Worker true true; Stop]
              147) as (_ & _ & H2 & _).
  assert (E0 : stopper w0 = NotCalled) by reflexivity.
  assert (E1 : stopper w1 = Joining) by reflexivity.
  assert (F1 : worker w1 = Finished) by reflexivity.
  assert (E2 : stopper w2 = Removing) by reflexivity.
  assert (P2 : fifo_present w2 = true) by reflexivity.
  destruct (H0 E0) as (Hflag & _).
  destruct (H1 E1) as (_ & Hjoin). destruct (Hjoin F1) as (Hrm & _).
  destruct (H2 E2) as (_ & _ & Hgone & Hret & _).
  destruct (Hret P2) as (Hr & Hl).
  split; [exact E0|]. split; [exact Hflag|]. split; [exact E1|].
  split; [exact F1|]. split; [exact Hrm|]. split; [exact P2|].
  split; [exact Hr|]. split; [exact Hgone | exact Hl].
Defined.





(** C8, as stated, fails: the frame whose write raised [BrokenPipeError]
    is not lost. It stays in the slot, and the next pass writes it. *)
Lemma failed_frame_is_written_on_retry :
  let w := exec Linux
             [Worker true true; AddData [x2a]; Worker true false;
              Worker true true]
             (init 147) in
  log w = [EWrite (GlobalHeader (Some 147)) true;
           EWrite (Frame [x2a]) false;
           EWrite (Frame [x2a]) true]
  /\ written (log w) = [GlobalHeader (Some 147); Frame [x2a]]
  /\ worker w = Draining.
Proof. repeat split. Qed.

(** C8, amended. On Linux, a write that raises [BrokenPipeError] never
    ends the drain loop: the worker stays in the loop, the frame stays in
    the slot with [last_packet] unchanged, and the next pass, if its writes
    complete, writes that frame (after the header if it is still due). The
    loop is left only with the cancellation flag set, which only [stop]
    sets. *)
Theorem broken_pipe_keeps_draining
        (sched : list action) (lt : Z) (h p : bool) :
  let w := exec Linux sched (init lt) in
  let w' := worker_turn Linux h p w in
  (worker w = Finished ->
     fifo_recv_cancel (self w) = true /\ In ESetCancel (log w))
  /\ (worker w = Draining -> fifo_recv_cancel (self w) = false ->
        worker w' = Draining
        /\ fifo_recv_cancel (self w') = false
        /\ (snd (loop_body Linux h p w) = inr BrokenPipeError ->
              fifo_packet (self w') = fifo_packet (self w)
              /\ last_packet (self w') = last_packet (self w)
              /\ written (log (worker_turn Linux true true w')) =
                   written (log w')
                   ++ (if fifo_need_header (self w')
                       then [get_global_header Linux (self w')] else [])
                   ++ [Frame (packet_bytes (fifo_packet (self w)))])).
Proof.
  intros w w'. pose proof (cancel_inv_exec sched lt) as [Hc1 Hc2].
  fold w in Hc1, Hc2. split.
  - intros Hf. split; [exact (Hc1 Hf) | exact (Hc2 (Hc1 Hf))].
  - intros Hw Hc.
    assert (Ew : w' = fst (loop_body Linux h p w))
      by (unfold w'; now apply worker_turn_linux).
    destruct (loop_body_frame Linux h p w) as (Hc' & _ & Hw' & _).
    rewrite <- Ew in Hc', Hw'.
    split; [congruence|]. split; [congruence|].
    intros Hr.
    destruct (loop_body_raised Linux h p w _ Hr) as (Hp & Hl & Ht & Hd & _).
    rewrite <- Ew in Hp, Hl.
    split; [exact Hp|]. split; [exact Hl|].
    rewrite worker_turn_linux by congruence.
    destruct (loop_body_writes Linux w') as (Hwr & _).
    + now rewrite Hp.
    + now rewrite Hp, Hl.
    + rewrite Hwr, Hp. reflexivity.
Qed.

Lemma broken_pipe_keeps_draining_witness :
  let w := exec Linux [Worker true true; AddData [x2a]] (init 147) in
  let w' := worker_turn Linux true false w in
  worker w = Draining
  /\ fifo_recv_cancel (self w) = false
  /\ snd (loop_body Linux true false w) = inr BrokenPipeError
  /\ worker w' = Draining
  /\ fifo_packet (self w') = fifo_packet (self w)
  /\ written (log (worker_turn Linux true true w')) =
       written (log w')
       ++ (if fifo_need_header (self w')
           then [get_global_header Linux (self w')] else [])
       ++ [Frame (packet_bytes (fifo_packet (self w)))].
Proof.
  intros w w'.
  assert (Hw : worker w = Draining) by reflexivity.
  assert (Hc : fifo_recv_cancel (self w) = false) by reflexivity.
  assert (Hr : snd (loop_body Linux true false w) = inr BrokenPipeError)
    by reflexivity.
  split; [exact Hw|]. split; [exact Hc|]. split; [exact Hr|].
  destruct (broken_pipe_keeps_draining
              [Worker true true; AddData [x2a]] 147 true false)
    as (_ & H).
  destruct (H Hw Hc) as (Hd & _ & Hk).
  destruct (Hk Hr) as (Hp & _ & Hwr).
  split; [exact Hd|]. split; [exact Hp | exact Hwr].
Defined.




End FifoFacts.

(** * Further properties of the command encoder and the registry *)

Section EncodingMore.

Lemma byte_of_Z_value (z : Z) :
  Z.of_N (Byte.to_N (byte_of_Z z)) = z mod 256.
Proof.
  unfold byte_of_Z.
  assert (Hr : 0 <= z mod 256 < 256) by (apply Z.mod_pos_bound; lia).
  destruct (Byte.of_N (Z.to_N (z mod 256))) as [b|] eqn:E.
  - apply Byte.to_of_N in E. rewrite E. apply Z2N.id. lia.
  - apply Byte.of_N_None_iff in E. lia.
Qed.

Lemma from_bytes_little_two (n : Z) :
  0 <= n < 65536 ->
  from_bytes_little [byte_of_Z n; byte_of_Z (n / 256)] = n.
Proof.
  intros H. unfold from_bytes_little. cbn [fold_right].
  rewrite !byte_of_Z_value.
  assert (Hq : 0 <= n / 256 < 256).
  { split; [apply Z.div_pos; lia | apply Z.div_lt_upper_bound; lia]. }
  rewrite (Z.mod_small (n / 256) 256 Hq).
  pose proof (Z.div_mod n 256 ltac:(lia)). lia.
Qed.

(** X1. The frequency payload, whenever it is produced, is four bytes;
    read back as two little-endian 16-bit integers they are the integer
    part of the frequency and zero. Outside the 16-bit range no payload is
    produced. *)
Theorem calculate_frequency_decodes (f : num) :
  (0 <= int_of_num f < 65536 ->
     exists bs,
       calculate_frequency (Freq f) = Ok bs
       /\ List.length bs = 4%nat
       /\ from_bytes_little (firstn 2 bs) = int_of_num f
       /\ from_bytes_little (skipn 2 bs) = 0)
  /\ (int_of_num f < 0 \/ 65536 <= int_of_num f ->
        calculate_frequency (Freq f) = Raise OverflowError).
Proof.
  split.
  - intros H. eexists. split; [apply calculate_frequency_of_number; exact H|].
    split; [reflexivity|]. split.
    + simpl firstn. apply from_bytes_little_two. exact H.
    + reflexivity.
  - apply calculate_frequency_overflow.
Qed.

Lemma calculate_frequency_decodes_witness :
  0 <= int_of_num (PyFloat (867 # 2)) < 65536
  /\ exists bs,
       calculate_frequency (Freq (PyFloat (867 # 2))) = Ok bs
       /\ List.length bs = 4%nat
       /\ from_bytes_little (firstn 2 bs) = int_of_num (PyFloat (867 # 2))
       /\ from_bytes_little (skipn 2 bs) = 0.
Proof.
  assert (H : 0 <= int_of_num (PyFloat (867 # 2)) < 65536)
    by (vm_compute; split; [discriminate | reflexivity]).
  split; [exact H|].
  exact (proj1 (calculate_frequency_decodes (PyFloat (867 # 2))) H).
Defined.

Lemma lookup_channel_empty_iff (l : list (Z * num)) (channel : Z) :
  lookup_channel l channel = EmptyBytes <-> ~ In channel (map fst l).
Proof.
  split.
  - intros H Hin. destruct (lookup_channel_present l channel Hin) as (f & Hf & _).
    congruence.
  - apply lookup_channel_absent.
Qed.

(** X2. The outcome of [command_cfg_frequency] in full: [ValueError] when
    the channel index is not in the channel set; [OverflowError] when it is
    but the integer part of its frequency is negative or does not fit 16
    bits; otherwise the command with the four-byte payload. [command_startup]
    returns a list exactly when [command_cfg_frequency] returns, and raises
    the same exception otherwise. *)
Theorem cfg_frequency_outcome (self : Protocol) (channel : Z) :
  match get_channel_bytes self channel with
  | EmptyBytes =>
      ~ In channel (list_channel_range self)
      /\ command_cfg_frequency self channel = Raise ValueError
  | Freq f =>
      In (channel, f) (channel_range self)
      /\ command_cfg_frequency self channel =
           if (0 <=? int_of_num f) && (int_of_num f <? 65536)
           then Ok (mkPacketCommand CMD_CFG_FREQUENCY
                      [byte_of_Z (int_of_num f);
                       byte_of_Z (int_of_num f / 256); x00; x00])
           else Raise OverflowError
  end
  /\ command_startup self channel =
       match command_cfg_frequency self channel with
       | Ok c =>
           Ok [command_ping self; command_stop self; command_cfg_phy self;
               c; command_start self]
       | Raise e => Raise e
       end.
Proof.
  split; [|unfold command_startup;
           destruct (command_cfg_frequency self channel); reflexivity].
  unfold command_cfg_frequency.
  destruct (get_channel_bytes self channel) as [f|] eqn:E.
  - split.
    + destruct (in_dec Z.eq_dec channel (list_channel_range self)) as [Hin|Hn].
      * unfold get_channel_bytes in E.
        destruct (lookup_channel_present _ _ Hin) as (g & Hg & Hing).
        congruence.
      * unfold get_channel_bytes in E.
        rewrite (lookup_channel_absent _ _ Hn) in E. discriminate E.
    + destruct ((0 <=? int_of_num f) && (int_of_num f <? 65536)) eqn:Hr.
      * apply andb_true_iff in Hr as [Hlo Hhi].
        apply Z.leb_le in Hlo. apply Z.ltb_lt in Hhi.
        rewrite calculate_frequency_of_number by lia. reflexivity.
      * rewrite calculate_frequency_overflow; [reflexivity|].
        apply andb_false_iff in Hr as [Hr|Hr].
        -- apply Z.leb_gt in Hr. now left.
        -- apply Z.ltb_ge in Hr. now right.
  - split; [|reflexivity]. now apply lookup_channel_empty_iff.
Qed.

(** X3. The three channel lookups agree. When [get_channel_range_bytes]
    returns a pair, it is the first pair of the channel set with that
    index, and [get_frequency_by_channel] and [get_channel_bytes] return
    its frequency; when it returns [0], the index is not in the channel
    set, [get_frequency_by_channel] returns [0] as well and
    [get_channel_bytes] the empty byte string. *)
Theorem channel_lookups_agree (self : Protocol) (channel : Z) :
  match get_channel_range_bytes self channel with
  | ChannelPair c f =>
      c = channel
      /\ (exists before after,
            channel_range self = before ++ (channel, f) :: after
            /\ ~ In channel (map fst before))
      /\ get_frequency_by_channel self channel = f
      /\ get_channel_bytes self channel = Freq f
  | IntZero =>
      ~ In channel (list_channel_range self)
      /\ get_frequency_by_channel self channel = PyInt 0
      /\ get_channel_bytes self channel = EmptyBytes
  end.
Proof.
  unfold get_channel_range_bytes, get_frequency_by_channel, get_channel_bytes,
    list_channel_range.
  induction (channel_range self) as [|[i f] rest IH]; simpl.
  - repeat split. intros [].
  - destruct (Z.eqb_spec i channel) as [->|Hne].
    + repeat split. exists [], rest. split; [reflexivity | intros []].
    + destruct (lookup_channel_pair rest channel) as [c g|].
      * destruct IH as (Hc & (before & after & Hr & Hb) & Hf & Hg).
        repeat split; auto.
        exists ((i, f) :: before), after. split.
        -- simpl. now rewrite Hr.
        -- simpl. intros [E|E]; [contradiction | now apply Hb].
      * destruct IH as (Hn & Hf & Hg). repeat split; auto.
        intros [E|E]; [contradiction | now apply Hn].
Qed.

(** X4. Every protocol of the registry can be started on every channel of
    its channel set: [command_startup] returns ping, stop, configure-PHY
    with a one-byte payload, configure-frequency, start, and the frequency
    payload read back is the integer part of the frequency that
    [get_frequency_by_channel] reports, with a zero fractional field. *)
Theorem registry_startup (m : Member) (channel : Z) :
  In m PROTOCOLSLIST ->
  In channel (list_channel_range (value m)) ->
  exists bs,
    command_startup (value m) channel =
      Ok [mkPacketCommand CMD_PING []; mkPacketCommand CMD_STOP [];
          mkPacketCommand CMD_CFG_PHY (phy_index (value m));
          mkPacketCommand CMD_CFG_FREQUENCY bs;
          mkPacketCommand CMD_START []]
    /\ List.length (phy_index (value m)) = 1%nat
    /\ List.length bs = 4%nat
    /\ from_bytes_little (firstn 2 bs) =
         int_of_num (get_frequency_by_channel (value m) channel)
    /\ from_bytes_little (skipn 2 bs) = 0.
Proof.
  intros Hm Hin.
  pose proof (registry_encodable m Hm) as Henc.
  destruct (cfg_frequency_known_channel (value m) channel Henc Hin)
    as (f & Hf & Hc).
  assert (Hr : 0 <= int_of_num f < 65536).
  { destruct (lookup_channel_present _ _ Hin) as (g & Hg & Hing).
    unfold get_channel_bytes in Hf. rewrite Hg in Hf. injection Hf as <-.
    unfold encodable in Henc. rewrite Forall_forall in Henc.
    exact (Henc _ Hing). }
  assert (Hfreq : get_frequency_by_channel (value m) channel = f).
  { pose proof (channel_lookups_agree (value m) channel) as H.
    destruct (get_channel_range_bytes (value m) channel) as [c g|].
    - destruct H as (_ & _ & Hg1 & Hg2). congruence.
    - destruct H as (_ & _ & Hg2). congruence. }
  eexists. split.
  - unfold command_startup. rewrite Hc. reflexivity.
  - split.
    + simpl in Hm. destruct Hm as [<-|[<-|[<-|[<-|[]]]]]; reflexivity.
    + split; [reflexivity|]. split; [|reflexivity].
      rewrite Hfreq. simpl firstn. now apply from_bytes_little_two.
Qed.

Lemma registry_startup_witness :
  In (mkMember "PROTOCOL_LORA" PROTOCOL_LORA) PROTOCOLSLIST
  /\ In 2 (list_channel_range PROTOCOL_LORA)
  /\ exists bs,
       command_startup PROTOCOL_LORA 2 =
         Ok [mkPacketCommand CMD_PING []; mkPacketCommand CMD_STOP [];
             mkPacketCommand CMD_CFG_PHY [x14];
             mkPacketCommand CMD_CFG_FREQUENCY bs;
             mkPacketCommand CMD_START []]
       /\ from_bytes_little (firstn 2 bs) = 435.
Proof.
  assert (Hm : In (mkMember "PROTOCOL_LORA" PROTOCOL_LORA) PROTOCOLSLIST)
    by (simpl; tauto).
  assert (Hc : In 2 (list_channel_range PROTOCOL_LORA)) by (simpl; tauto).
  split; [exact Hm|]. split; [exact Hc|].
  destruct (registry_startup _ 2 Hm Hc) as (bs & Hs & _ & _ & Hd & _).
  exists bs. split; [exact Hs | exact Hd].
Defined.

(** X5. The commands depend on the descriptor only through [phy_index]
    and [channel_range]: two descriptors that agree on both give the same
    startup sequence, or the same exception, on every channel. Thread and
    Zigbee are such a pair. *)
Theorem startup_depends_on_phy_and_channels (p q : Protocol) (channel : Z) :
  phy_index p = phy_index q ->
  channel_range p = channel_range q ->
  command_cfg_frequency p channel = command_cfg_frequency q channel
  /\ command_startup p channel = command_startup q channel.
Proof.
  intros Hp Hc.
  assert (E : command_cfg_frequency p channel = command_cfg_frequency q channel).
  { unfold command_cfg_frequency, get_channel_bytes. now rewrite Hc. }
  split; [exact E|].
  unfold command_startup, command_cfg_phy. now rewrite E, Hp.
Qed.

Lemma startup_depends_on_phy_and_channels_witness :
  name PROTOCOL_THREAD <> name PROTOCOL_ZIGBEE
  /\ forall channel,
       command_startup PROTOCOL_THREAD channel =
         command_startup PROTOCOL_ZIGBEE channel.
Proof.
  split; [discriminate|].
  intros channel.
  exact (proj2 (startup_depends_on_phy_and_channels
                  PROTOCOL_THREAD PROTOCOL_ZIGBEE channel eq_refl eq_refl)).
Defined.

(** X6. The Zigbee channel plan: each channel from 11 to 26 is in the
    channel set with the frequency [2405 + 5 * (channel - 11)] MHz, and no
    other channel is in it. *)
Theorem zigbee_channel_plan (channel : Z) :
  (11 <= channel <= 26 ->
     int_of_num (get_frequency_by_channel PROTOCOL_ZIGBEE channel) =
       2405 + 5 * (channel - 11)
     /\ In channel (list_channel_range PROTOCOL_ZIGBEE))
  /\ (channel < 11 \/ 26 < channel ->
        ~ In channel (list_channel_range PROTOCOL_ZIGBEE)
        /\ get_channel_bytes PROTOCOL_ZIGBEE channel = EmptyBytes).
Proof.
  split.
  - intros H.
    assert (E : channel = 11 \/ channel = 12 \/ channel = 13 \/ channel = 14
                \/ channel = 15 \/ channel = 16 \/ channel = 17
                \/ channel = 18 \/ channel = 19 \/ channel = 20
                \/ channel = 21 \/ channel = 22 \/ channel = 23
                \/ channel = 24 \/ channel = 25 \/ channel = 26) by lia.
    repeat (destruct E as [->|E]; [split; [reflexivity | vm_compute; tauto]|]).
    subst. split; [reflexivity | vm_compute; tauto].
  - intros H.
    assert (Hn : ~ In channel (list_channel_range PROTOCOL_ZIGBEE)).
    { intros Hin. vm_compute in Hin.
      repeat (destruct Hin as [Hin|Hin]; [lia|]). exact Hin. }
    split; [exact Hn|]. now apply lookup_channel_absent.
Qed.

Lemma zigbee_channel_plan_witness :
  11 <= 13 <= 26
  /\ int_of_num (get_frequency_by_channel PROTOCOL_ZIGBEE 13) = 2415
  /\ 26 < 27
  /\ get_channel_bytes PROTOCOL_ZIGBEE 27 = EmptyBytes.
Proof.
  assert (H1 : 11 <= 13 <= 26) by lia.
  assert (H2 : 27 < 11 \/ 26 < 27) by lia.
  split; [exact H1|]. split.
  - exact (proj1 (proj1 (zigbee_channel_plan 13) H1)).
  - split; [lia|]. exact (proj2 (proj2 (zigbee_channel_plan 27) H2)).
Defined.

End EncodingMore.

Section RegistryMore.

(** X7. Resolution finds the first member that answers the name: when no
    member before [m] answers [nm] and [m] does, the result is [m] itself
    if [nm] is its member name and the descriptor of [m] if [nm] is only
    one of its common names, whatever follows [m] in the registry. *)
Theorem resolve_finds_first_answer
        (before after : list Member) (m : Member) (nm : string) :
  (forall m', In m' before -> ~ answers nm m') ->
  answers nm m ->
  get_protocol_by_name_in (before ++ m :: after) nm =
    Some (if String.eqb (member_name m) nm
          then ByMember m else ByValue (value m)).
Proof.
  intros Hb Hm. induction before as [|m0 before IH]; simpl.
  - destruct (String.eqb (member_name m) nm) eqn:En; [reflexivity|].
    destruct Hm as [Hm|Hm].
    + apply String.eqb_neq in En. contradiction.
    + unfold find_by_name.
      apply str_in_spec in Hm. now rewrite Hm.
  - assert (H0 : ~ answers nm m0) by (apply Hb; now left).
    destruct (String.eqb (member_name m0) nm) eqn:En.
    + apply String.eqb_eq in En. exfalso. apply H0. now left.
    + unfold find_by_name.
      destruct (str_in nm (common_names (value m0))) eqn:Ea.
      * apply str_in_spec in Ea. exfalso. apply H0. now right.
      * apply IH. intros m' Hin. apply Hb. now right.
Qed.

Lemma resolve_finds_first_answer_witness :
  get_protocol_by_name "zig" = Some (ByValue PROTOCOL_ZIGBEE).
Proof.
  assert (Hb : forall m', In m' [mkMember "PROTOCOL_BLE" PROTOCOL_BLE] ->
                          ~ answers "zig" m').
  { intros m' [<-|[]] [H|H].
    - discriminate H.
    - simpl in H. destruct H as [H|[H|[H|[]]]]; discriminate H. }
  assert (Hm : answers "zig" (mkMember "PROTOCOL_ZIGBEE" PROTOCOL_ZIGBEE)).
  { right. simpl. tauto. }
  exact (resolve_finds_first_answer
           [mkMember "PROTOCOL_BLE" PROTOCOL_BLE]
           [mkMember "PROTOCOL_THREAD" PROTOCOL_THREAD;
            mkMember "PROTOCOL_LORA" PROTOCOL_LORA]
           (mkMember "PROTOCOL_ZIGBEE" PROTOCOL_ZIGBEE) "zig" Hb Hm).
Defined.

(** X8. In the registry no name is shared: the member name of each member
    resolves to that member, each of its common names to its descriptor,
    and the [name] attribute of its descriptor to nothing. *)
Theorem registry_names_resolve (m : Member) :
  In m PROTOCOLSLIST ->
  get_protocol_by_name (member_name m) = Some (ByMember m)
  /\ (forall a, In a (common_names (value m)) ->
                get_protocol_by_name a = Some (ByValue (value m)))
  /\ get_protocol_by_name (name (value m)) = None.
Proof.
  intros Hm. simpl in Hm.
  destruct Hm as [<-|[<-|[<-|[<-|[]]]]];
    (split; [reflexivity|]); (split; [|reflexivity]);
    intros a Ha; simpl in Ha;
    repeat (destruct Ha as [<-|Ha]; [reflexivity|]); destruct Ha.
Qed.

Lemma registry_names_resolve_witness :
  In (mkMember "PROTOCOL_THREAD" PROTOCOL_THREAD) PROTOCOLSLIST
  /\ get_protocol_by_name "PROTOCOL_THREAD" =
       Some (ByMember (mkMember "PROTOCOL_THREAD" PROTOCOL_THREAD))
  /\ get_protocol_by_name "thread" = Some (ByValue PROTOCOL_THREAD)
  /\ get_protocol_by_name "Thread" = None.
Proof.
  assert (Hm : In (mkMember "PROTOCOL_THREAD" PROTOCOL_THREAD) PROTOCOLSLIST)
    by (simpl; tauto).
  destruct (registry_names_resolve _ Hm) as (H1 & H2 & H3).
  split; [exact Hm|]. split; [exact H1|]. split; [|exact H3].
  apply H2. simpl. tauto.
Defined.

End RegistryMore.

(** * Further properties of the FIFO worker *)

Module FifoMore.
Import Fifo FifoObs FifoFacts.

Lemma stuck_step (w : world) (a : action) :
  stuck w ->
  stuck (step Linux w a)
  /\ stop_trace (log (step Linux w a)) = stop_trace (log w).
Proof.
  unfold stuck. intros (Hs & Hw). destruct a as [d | h p | |]; simpl.
  - auto.
  - destruct (worker_turn_frame Linux h p w) as (Hst & (l & Hl & Hn) & _).
    rewrite Hst, Hl, stop_trace_app, Hn, app_nil_r.
    split; [split; [exact Hs|] | reflexivity].
    destruct Hw as [Hw|[Hw Hc]].
    + right. unfold worker_turn. rewrite Hw. simpl. auto.
    + right. rewrite (worker_turn_linux h p w Hw Hc).
      destruct (loop_body_frame Linux h p w) as (Hc' & _ & Hw' & _).
      split; congruence.
  - unfold stop_turn. rewrite Hs.
    destruct Hw as [Hw|[Hw Hc]]; rewrite Hw; auto.
  - auto.
Qed.

Lemma stuck_exec (sched : list action) (w : world) :
  stuck w ->
  stuck (exec Linux sched w)
  /\ stop_trace (log (exec Linux sched w)) = stop_trace (log w).
Proof.
  revert w. induction sched as [|a sched IH]; intros w H; [auto|].
  simpl. destruct (stuck_step w a H) as [H1 H2].
  destruct (IH _ H1) as [H3 H4]. split; [exact H3 | congruence].
Qed.

(** X12. On Linux, a [stop] that sets the flag before [run] has executed
    is undone by [run], which clears the flag on entry: from then on,
    whatever happens, the worker never leaves its loop, [stop] stays
    blocked in the join, and the special file is never removed by it. *)
Theorem stop_before_run_never_returns (w : world) (later : list action) :
  worker w = Started ->
  stopper w = NotCalled ->
  let w' := exec Linux (Stop :: later) w in
  stopper w' = Joining
  /\ worker w' <> Finished
  /\ stop_trace (log w') = stop_trace (log w) ++ [ESetCancel].
Proof.
  intros Hw Hs w'.
  assert (Hst : stuck (stop_turn Linux w)).
  { unfold stuck, stop_turn. rewrite Hs. simpl. auto. }
  destruct (stuck_exec later _ Hst) as [(H1 & H2) H3].
  unfold w'. simpl. split; [exact H1|]. split.
  - destruct H2 as [H2|[H2 _]]; rewrite H2; discriminate.
  - rewrite H3. unfold stop_turn. rewrite Hs. simpl.
    now rewrite stop_trace_app.
Qed.

Lemma stop_before_run_never_returns_witness :
  let w' := exec Linux
              [Stop; Worker true true; AddData [x2a]; Worker true true;
               Stop; Worker true true; Stop]
              (init 147) in
  worker (init 147) = Started
  /\ stopper (init 147) = NotCalled
  /\ stopper w' = Joining
  /\ worker w' <> Finished
  /\ fifo_recv_cancel (self w') = false.
Proof.
  intros w'.
  assert (Hw : worker (init 147) = Started) by reflexivity.
  assert (Hs : stopper (init 147) = NotCalled) by reflexivity.
  destruct (stop_before_run_never_returns (init 147)
              [Worker true true; AddData [x2a]; Worker true true;
               Stop; Worker true true; Stop] Hw Hs) as (H1 & H2 & _).
  split; [exact Hw|]. split; [exact Hs|]. split; [exact H1|].
  split; [exact H2 | reflexivity].
Defined.

(** X13. On Windows a write that raises ends [run]: the worker returns
    with the cancellation flag still clear and the frame still in the
    slot, and nothing is written afterwards, whatever is submitted. *)
Theorem windows_write_error_ends_worker
        (w : world) (h p : bool) (e : io_exn) (later : list action) :
  worker w = Draining ->
  fifo_recv_cancel (self w) = false ->
  snd (loop_body Windows h p w) = inr e ->
  let w1 := worker_turn Windows h p w in
  worker w1 = Finished
  /\ fifo_recv_cancel (self w1) = false
  /\ fifo_packet (self w1) = fifo_packet (self w)
  /\ worker_trace (log (exec Windows later w1)) = worker_trace (log w1).
Proof.
  intros Hw Hc He w1.
  assert (E : w1 = set_worker Finished (fst (loop_body Windows h p w))).
  { unfold w1. rewrite worker_turn_draining by assumption.
    destruct (loop_body Windows h p w) as [w' [u|e']]; simpl in *;
      [discriminate He | reflexivity]. }
  destruct (loop_body_frame Windows h p w) as (Hc' & _).
  destruct (loop_body_raised Windows h p w e He) as (Hp & _).
  rewrite E. simpl. split; [reflexivity|]. split; [congruence|].
  split; [exact Hp|].
  apply (finished_is_final Windows later
           (set_worker Finished (fst (loop_body Windows h p w)))).
  reflexivity.
Qed.

Lemma windows_write_error_ends_worker_witness :
  let w := exec Windows [Worker true true; AddData [x2a]] (init 147) in
  let w1 := worker_turn Windows true false w in
  worker w = Draining
  /\ snd (loop_body Windows true false w) = inr PywintypesError
  /\ worker w1 = Finished
  /\ fifo_recv_cancel (self w1) = false
  /\ worker_trace
       (log (exec Windows [AddData [x07]; Worker true true] w1)) =
       worker_trace (log w1).
Proof.
  intros w w1.
  assert (Hw : worker w = Draining) by reflexivity.
  assert (Hc : fifo_recv_cancel (self w) = false) by reflexivity.
  assert (He : snd (loop_body Windows true false w) = inr PywintypesError)
    by reflexivity.
  destruct (windows_write_error_ends_worker w true false PywintypesError
              [AddData [x07]; Worker true true] Hw Hc He)
    as (H1 & H2 & _ & H4).
  split; [exact Hw|]. split; [exact He|]. split; [exact H1|].
  split; [exact H2 | exact H4].
Defined.

Lemma released_step (w : world) (a : action) :
  stop_inv w /\ released w ->
  stop_inv (step Linux w a) /\ released (step Linux w a).
Proof.
  intros [Hi Hr]. split; [now apply stop_inv_step|].
  unfold released in *. destruct a as [d | h p | |]; simpl.
  - exact Hr.
  - destruct (worker_turn_frame Linux h p w) as (Hs & _ & Hf).
    rewrite Hs. intros H. destruct (Hr H) as [Hp Hw].
    rewrite (Hf Hw). auto.
  - unfold stop_turn, stop_inv in *. destruct (stopper w) eqn:Es; simpl.
    + intros [H|(c & H)]; discriminate H.
    + destruct (worker w) eqn:Ew; simpl; rewrite ?Es;
        intros [H|(c & H)]; discriminate H.
    + destruct Hi as [_ Hw].
      destruct (fifo_present w) eqn:Ep; simpl; intros _; auto.
    + rewrite Es. exact Hr.
    + rewrite Es. exact Hr.
  - intros H. destruct (Hr H) as [_ Hw]. auto.
Qed.

(** X14. On Linux, whenever [stop] has ended, by returning or by
    [sys.exit], the special file no longer exists and the worker has
    returned. *)
Theorem stop_leaves_no_file (sched : list action) (lt : Z) :
  let w := exec Linux sched (init lt) in
  (stopper w = Returned \/ exists c, stopper w = Exited c) ->
  fifo_present w = false /\ worker w = Finished.
Proof.
  intros w.
  assert (H : stop_inv w /\ released w).
  { unfold w. apply (exec_invariant Linux (fun w => stop_inv w /\ released w)).
    - intros w0 a. apply released_step.
    - split; [reflexivity|]. intros [H|(c & H)]; discriminate H. }
  exact (proj2 H).
Qed.

Lemma stop_leaves_no_file_witness :
  let w := exec Linux
             [Worker true true; AddData [x2a]; Worker true true; Stop;
              Worker true true; Stop; Stop]
             (init 147) in
  stopper w = Returned /\ fifo_present w = false /\ worker w = Finished.
Proof.
  intros w.
  assert (Hs : stopper w = Returned) by reflexivity.
  split; [exact Hs|].
  exact (stop_leaves_no_file
           [Worker true true; AddData [x2a]; Worker true true; Stop;
            Worker true true; Stop; Stop] 147 (or_introl Hs)).
Defined.

Lemma get_global_header_for (v : variant) (o : obj) :
  get_global_header v o = header_for v (linktype o).
Proof. now destruct v. Qed.

Lemma loop_body_headers (v : variant) (h p : bool) (w : world) :
  let w' := fst (loop_body v h p w) in
  linktype (self w') = linktype (self w)
  /\ forall c, In c (attempted (log w')) ->
                In c (attempted (log w))
                \/ is_header c = false
                \/ c = header_for v (linktype (self w)).
Proof.
  destruct (loop_body_pass v h p w) as
    [Ht | Ht Hd | Ht Hd Hn Hh | w1 Ht Hd Hw1 Hp | w1 Ht Hd Hw1 Hp]; simpl.
  - split; [reflexivity|]. intros c. rewrite attempted_app. simpl.
    rewrite app_nil_r. auto.
  - auto.
  - split; [reflexivity|]. intros c. rewrite attempted_app. simpl.
    rewrite in_app_iff. simpl. intros [H|[H|[]]]; [auto|].
    right. right. subst. apply get_global_header_for.
  - destruct Hw1 as [(Hn & _ & ->)|(Hn & ->)]; simpl;
      (split; [reflexivity|]); intros c;
      rewrite !attempted_app; simpl; rewrite !in_app_iff; simpl.
    + intros [[H|[H|[]]]|[H|[]]]; [auto| |]; right;
        [right; subst; apply get_global_header_for | left; now subst].
    + intros [H|[H|[]]]; [auto|]. right. left. now subst.
  - destruct Hw1 as [(Hn & _ & ->)|(Hn & ->)]; simpl;
      (split; [reflexivity|]); intros c;
      rewrite !attempted_app; simpl; rewrite !in_app_iff; simpl.
    + intros [[H|[H|[]]]|[H|[]]]; [auto| |]; right;
        [right; subst; apply get_global_header_for | left; now subst].
    + intros [H|[H|[]]]; [auto|]. right. left. now subst.
Qed.

Lemma headers_step (v : variant) (w : world) (a : action) :
  linktype (self (step v w a)) = linktype (self w)
  /\ forall c, In c (attempted (log (step v w a))) ->
                In c (attempted (log w))
                \/ is_header c = false
                \/ c = header_for v (linktype (self w)).
Proof.
  destruct a as [d | h p | |]; simpl.
  - auto.
  - unfold worker_turn. destruct (worker w).
    + destruct v; simpl; auto.
    + destruct (fifo_recv_cancel (self w)); [simpl; auto|].
      pose proof (loop_body_headers v h p w) as H.
      destruct (loop_body v h p w) as [w' [u|e]]; simpl in H.
      * exact H.
      * destruct v; exact H.
    + auto.
  - unfold stop_turn. destruct (stopper w).
    + destruct v; simpl; (split; [reflexivity|]); intros c;
        rewrite attempted_app; simpl; rewrite app_nil_r; auto.
    + destruct (worker w); destruct v; simpl; (split; [reflexivity|]);
        intros c; rewrite ?attempted_app; simpl; rewrite ?app_nil_r; auto.
    + destruct (fifo_present w); simpl; (split; [reflexivity|]); intros c;
        rewrite !attempted_app; simpl; rewrite ?app_nil_r; auto.
    + auto.
    + auto.
  - auto.
Qed.

Lemma headers_exec (v : variant) (sched : list action) (w : world) :
  linktype (self (exec v sched w)) = linktype (self w)
  /\ forall c, In c (attempted (log (exec v sched w))) ->
                In c (attempted (log w))
                \/ is_header c = false
                \/ c = header_for v (linktype (self w)).
Proof.
  revert w. induction sched as [|a sched IH]; intros w; simpl; [auto|].
  destruct (headers_step v w a) as [H1 H2].
  destruct (IH (step v w a)) as [H3 H4]. split; [congruence|].
  intros c Hc. destruct (H4 c Hc) as [H|[H|H]]; auto.
  right. right. now rewrite <- H1.
Qed.

(** X15. [set_linktype] decides the header on Linux only. After
    [set_linktype(lt)], every header handed to [write] on Linux is the one
    for [lt], and nothing in the worker, the producer or [stop] changes the
    link type; on Windows the header is requested without a link type
    whatever was set. *)
Theorem set_linktype_decides_linux_header
        (v : variant) (w : world) (lt : Z) (sched : list action) (c : chunk) :
  In c (attempted (log (exec v sched (set_linktype lt w)))) ->
  is_header c = true ->
  (In c (attempted (log w))
   \/ c = match v with
          | Linux => GlobalHeader (Some lt)
          | Windows => GlobalHeader None
          end)
  /\ linktype (self (exec v sched (set_linktype lt w))) = lt.
Proof.
  intros Hin Hh.
  destruct (headers_exec v sched (set_linktype lt w)) as [H1 H2].
  split; [|exact H1].
  destruct (H2 c Hin) as [H|[H|H]]; [now left | congruence | right; exact H].
Qed.

Lemma set_linktype_decides_linux_header_witness :
  let w := exec Linux
             [Worker true true; AddData [x2a]; Worker true true]
             (set_linktype 148 (init 147)) in
  written (log w) = [GlobalHeader (Some 148); Frame [x2a]]
  /\ (In (GlobalHeader (Some 148)) (attempted (log (init 147)))
      \/ GlobalHeader (Some 148) = GlobalHeader (Some 148))
  /\ linktype (self w) = 148.
Proof.
  intros w.
  assert (Hin : In (GlobalHeader (Some 148)) (attempted (log w)))
    by (simpl; tauto).
  split; [reflexivity|].
  exact (set_linktype_decides_linux_header Linux (init 147) 148
           [Worker true true; AddData [x2a]; Worker true true]
           (GlobalHeader (Some 148)) Hin eq_refl).
Defined.

End FifoMore.

(** * Properties of the FIFO worker, statement by statement *)

Module StmtFacts.
Import Fifo Stmt.


Lemma exec_snoc (v : variant) (sched : list action) (a : action) (m : machine) :
  exec v (sched ++ [a]) m = step v (exec v sched m) a.
Proof. unfold exec. now rewrite fold_left_app. Qed.






Lemma is_header_global (v : variant) (o : obj) :
  is_header (get_global_header v o) = true.
Proof. now destruct v. Qed.




Lemma submitted_app (s1 s2 : list action) :
  submitted (s1 ++ s2) = submitted s1 ++ submitted s2.
Proof. apply flat_map_app. Qed.

Lemma in_submitted (d : bytes) (sched : list action) :
  In d (submitted sched) <-> In (Submit d) sched.
Proof.
  unfold submitted. rewrite in_flat_map. split.
  - intros (a & Ha & Hd). destruct a; simpl in Hd; try destruct Hd.
    + subst. exact Ha.
    + destruct H.
  - intros H. exists (Submit d). split; [exact H | now left].
Qed.

Ltac origin_easy :=
  repeat split; intros; subst; try discriminate;
  repeat match goal with
         | H : In _ (_ ++ _) |- _ => apply in_app_iff in H; destruct H
         | H : In _ [_] |- _ => destruct H as [H|[]]
         | H : In _ [] |- _ => destruct H
         | H : Frame _ = Frame _ |- _ => injection H as H; subst
         | H : GlobalHeader _ = Frame _ |- _ => discriminate H
         end;
  rewrite ?in_app_iff; simpl; auto 6.

Lemma origin_inv_step (v : variant) (sched : list action) (a : action)
      (m : machine) :
  origin_inv sched m -> origin_inv (sched ++ [a]) (step v m a).
Proof.
  destruct m as [[c nh pk lp lt] pt bf pp cl hp fp].
  unfold origin_inv. rewrite submitted_app. simpl.
  intros (H1 & H2 & H3).
  assert (H3' : forall x, In x pp \/ In x bf -> In x cl).
  { intros x Hx. apply H3. apply in_app_iff. exact Hx. }
  destruct a as [d | ok | |]; simpl.
  - repeat split; intros.
    + injection H as <-. apply in_app_iff. right. now left.
    + apply in_app_iff. left. auto.
    + auto.
  - rewrite app_nil_r. unfold run_stmt; simpl.
    destruct pt; simpl; try (now repeat split; auto).
    + destruct v; simpl; repeat split; auto.
    + destruct c; simpl; repeat split; auto.
    + destruct (truthy pk); simpl; repeat split; auto.
    + destruct (differs pk lp); simpl; repeat split; auto.
    + destruct nh; simpl; repeat split; auto.
    + destruct v; [|destruct ok]; simpl; origin_easy.
    + destruct ok; simpl; origin_easy.
    + destruct pk as [d|]; [|now repeat split; auto].
      destruct v; [|destruct ok]; simpl; origin_easy.
    + destruct ok; simpl; origin_easy.
  - rewrite app_nil_r. unfold halt_stmt; simpl.
    destruct hp; simpl; try (now repeat split; auto).
    + destruct v; simpl; repeat split; auto; discriminate.
    + destruct (terminated pt); simpl; repeat split; auto.
    + destruct fp; simpl; repeat split; auto.
  - rewrite app_nil_r. repeat split; auto.
Qed.

Lemma origin_inv_exec (v : variant) (sched : list action) (lt : Z) :
  origin_inv sched (exec v sched (init lt)).
Proof.
  induction sched as [|a sched IH] using rev_ind.
  - unfold origin_inv. simpl. repeat split; intros; try discriminate; tauto.
  - rewrite exec_snoc. now apply origin_inv_step.
Qed.

Lemma differs_true_neq (d : bytes) (q : option bytes) :
  q <> Some d -> differs (Some d) q = true.
Proof.
  destruct q as [b|]; simpl; [|reflexivity].
  intros H. apply negb_true_iff.
  destruct (bytes_eqb d b) eqn:E; [|reflexivity].
  exfalso. apply H. f_equal. symmetry.
  apply (proj1 (FifoFacts.differs_frames d b)). simpl. now rewrite E.
Qed.

(** C3. On Linux the code can put the global header into the pipe twice.
    With one frame submitted, the flush of the header raises
    [BrokenPipeError]: [fifo_need_header] stays set and the header stays in
    the writer's buffer; the next pass writes the header again, and its
    flush hands both copies to the pipe, before the one record. *)
Theorem header_reaches_pipe_twice :
  let sched := Submit [x01] :: repeat (Run true) 6 ++ [Run false]
               ++ repeat (Run true) 11 in
  let m := exec Linux sched (init 147) in
  submitted sched = [[x01]]
  /\ pipe m = [GlobalHeader (Some 147); GlobalHeader (Some 147); Frame [x01]]
  /\ headers (pipe m) = 2%nat
  /\ at_point m = AtWhile
  /\ buffer m = [].
Proof. repeat split. Qed.

(** X9. Whatever the interleaving of [run], [add_data] and [stop], every
    frame that reaches the pipe, and every frame handed to a write, was
    passed to [add_data] before; so was the frame in the slot. *)
Theorem pipe_frames_were_submitted
        (v : variant) (sched : list action) (lt : Z) (d : bytes) :
  let m := exec v sched (init lt) in
  (In (Frame d) (pipe m) -> In (Submit d) sched)
  /\ (In (Frame d) (calls m) -> In (Submit d) sched)
  /\ (fifo_packet (attrs m) = Some d -> In (Submit d) sched).
Proof.
  intros m. destruct (origin_inv_exec v sched lt) as (H1 & H2 & H3).
  fold m in H1, H2, H3. repeat split; intros H; apply in_submitted.
  - apply H2, H3. apply in_app_iff. now left.
  - now apply H2.
  - now apply H1.
Qed.

Lemma pipe_frames_were_submitted_witness :
  let sched := [Run true; Submit [x01]; Run true; Run true; Submit [x02];
                Run true; Run true; Run true; Run true; Run true; Run true;
                Run true] in
  let m := exec Linux sched (init 147) in
  pipe m = [GlobalHeader (Some 147); Frame [x02]]
  /\ In (Submit [x02]) sched.
Proof.
  intros sched m.
  assert (Hp : pipe m = [GlobalHeader (Some 147); Frame [x02]])
    by reflexivity.
  split; [exact Hp|].
  apply (proj1 (pipe_frames_were_submitted Linux sched 147 [x02])).
  fold m. rewrite Hp. simpl. tauto.
Defined.


Lemma flag_set_step (v : variant) (m : machine) (a : action) :
  fifo_recv_cancel (attrs m) = true -> at_point m <> AtEntry ->
  fifo_recv_cancel (attrs (step v m a)) = true
  /\ at_point (step v m a) <> AtEntry
  /\ (List.length (calls (step v m a)) + budget (at_point (step v m a))
      <= List.length (calls m) + budget (at_point m))%nat.
Proof.
  destruct m as [[c nh pk lp lt] pt bf pp cl hp fp]. simpl.
  intros -> Hpt. destruct a as [d | ok | |]; simpl.
  - repeat split; auto.
  - unfold run_stmt; simpl.
    destruct pt; simpl; try (now contradiction Hpt);
      repeat match goal with
             | |- context [if ?b then _ else _] => destruct b; simpl
             | |- context [match ?x with _ => _ end] => destruct x; simpl
             end;
      rewrite ?length_app; simpl; repeat split; try discriminate; auto; lia.
  - unfold halt_stmt; simpl.
    destruct hp; simpl;
      repeat match goal with
             | |- context [if ?b then _ else _] => destruct b; simpl
             | |- context [match ?x with _ => _ end] => destruct x; simpl
             end;
      repeat split; auto.
  - repeat split; auto.
Qed.

(** X11. Once the cancellation flag is set and [run] is past its entry,
    [run] hands at most the chunks of the pass it is in to a write, one
    header and one frame at most, whatever is submitted meanwhile; when it
    is at the loop test it writes nothing more. The flag is never cleared
    again. *)
Theorem flag_set_bounds_writes
        (v : variant) (m : machine) (sched : list action) :
  fifo_recv_cancel (attrs m) = true ->
  at_point m <> AtEntry ->
  let m' := exec v sched m in
  fifo_recv_cancel (attrs m') = true
  /\ (List.length (calls m') + budget (at_point m')
      <= List.length (calls m) + budget (at_point m))%nat
  /\ (List.length (calls m') <= List.length (calls m) + 2)%nat
  /\ (at_point m = AtWhile -> List.length (calls m') = List.length (calls m)).
Proof.
  intros Hc Hp m'.
  assert (H : fifo_recv_cancel (attrs m') = true
              /\ at_point m' <> AtEntry
              /\ (List.length (calls m') + budget (at_point m')
                  <= List.length (calls m) + budget (at_point m))%nat).
  { unfold m'. clear m'. revert m Hc Hp.
    induction sched as [|a sched IH]; intros m Hc Hp; simpl.
    - repeat split; auto.
    - destruct (flag_set_step v m a Hc Hp) as (H1 & H2 & H3).
      destruct (IH _ H1 H2) as (H4 & H5 & H6).
      repeat split; auto. lia. }
  destruct H as (H1 & _ & H3).
  assert (Hb : (budget (at_point m) <= 2)%nat)
    by (destruct (at_point m); simpl; lia).
  assert (Hmono : (List.length (calls m) <= List.length (calls m'))%nat).
  { unfold m'. clear. revert m.
    induction sched as [|a sched IH]; intros m; simpl; [lia|].
    specialize (IH (step v m a)).
    assert (Hs : (List.length (calls m)
                  <= List.length (calls (step v m a)))%nat).
    { destruct m as [[c nh pk lp lt] pt bf pp cl hp fp].
      destruct a as [d | ok | |]; simpl; try lia.
      - unfold run_stmt; simpl.
        destruct pt; simpl; try lia;
          repeat match goal with
                 | |- context [if ?b then _ else _] => destruct b; simpl
                 | |- context [match ?x with _ => _ end] => destruct x; simpl
                 end; rewrite ?length_app; simpl; lia.
      - unfold halt_stmt; simpl.
        destruct hp; simpl; try lia;
          repeat match goal with
                 | |- context [if ?b then _ else _] => destruct b; simpl
                 | |- context [match ?x with _ => _ end] => destruct x; simpl
                 end; lia. }
    lia. }
  split; [exact H1|]. split; [exact H3|]. split; [lia|].
  intros E. rewrite E in H3. simpl in H3. lia.
Qed.

Lemma flag_set_bounds_writes_witness :
  let m := exec Linux
             [Run true; Submit [x01]; Run true; Run true; Run true;
              Halt; Halt]
             (init 147) in
  let m' := exec Linux (repeat (Run true) 9) m in
  fifo_recv_cancel (attrs m) = true
  /\ at_point m = AtIfHeader
  /\ calls m = []
  /\ calls m' = [GlobalHeader (Some 147); Frame [x01]]
  /\ at_point m' = RunReturned
  /\ (List.length (calls m') <= List.length (calls m) + 2)%nat.
Proof.
  intros m m'.
  assert (Hc : fifo_recv_cancel (attrs m) = true) by reflexivity.
  assert (Hp : at_point m <> AtEntry) by discriminate.
  destruct (flag_set_bounds_writes Linux m (repeat (Run true) 9) Hc Hp)
    as (_ & _ & H & _).
  split; [exact Hc|]. split; [reflexivity|]. split; [reflexivity|].
  split; [reflexivity|]. split; [reflexivity | exact H].
Defined.

Lemma exec_cons (v : variant) (a : action) (sched : list action)
      (m : machine) :
  exec v (a :: sched) m = exec v sched (step v m a).
Proof. reflexivity. Qed.

Lemma exec_nil (v : variant) (m : machine) : exec v [] m = m.
Proof. reflexivity. Qed.

(** Runs a schedule one action at a time, normalising the machine after
    each; [Hd] settles the comparison of line 69. *)
Ltac run_schedule Hd :=
  cbn [repeat app];
  repeat (rewrite exec_cons;
          cbv beta iota zeta delta
              [step run_stmt halt_stmt goto with_attrs with_halt with_file
               buffered_write flushed write_file attrs at_point buffer pipe
               calls halt_at file_present fifo_recv_cancel fifo_need_header
               fifo_packet last_packet linktype set_cancel set_need_header
               set_packet set_last truthy get_global_header];
          rewrite ?Hd);
  rewrite ?exec_nil;
  cbv beta iota zeta delta
      [attrs at_point buffer pipe calls fifo_need_header fifo_packet
       last_packet get_global_header linktype].

(** X16. A pass that nothing interrupts: with the worker at the loop test,
    the flag clear and in the slot a frame that is not empty and differs
    from [last_packet], if nothing is submitted while the pass runs and its
    writes complete, the pipe receives what the writer's buffer still held,
    the header if it is still due, and the frame; the slot is then empty,
    the frame is [last_packet] and the header is no longer due. *)
Theorem undisturbed_pass_writes_frame (v : variant) (m : machine) (d : bytes) :
  at_point m = AtWhile ->
  fifo_recv_cancel (attrs m) = false ->
  fifo_packet (attrs m) = Some d ->
  d <> [] ->
  last_packet (attrs m) <> Some d ->
  let n := match v, fifo_need_header (attrs m) with
           | Linux, true => 11%nat
           | Linux, false => 8%nat
           | Windows, true => 9%nat
           | Windows, false => 7%nat
           end in
  let m' := exec v (repeat (Run true) n) m in
  at_point m' = AtWhile
  /\ pipe m' =
       pipe m
       ++ (match v with Linux => buffer m | Windows => [] end)
       ++ (if fifo_need_header (attrs m)
           then [get_global_header v (attrs m)] else [])
       ++ [Frame d]
  /\ fifo_packet (attrs m') = None
  /\ last_packet (attrs m') = Some d
  /\ fifo_need_header (attrs m') = false.
Proof.
  destruct m as [[c nh pk lp lt] pt bf pp cl hp fp].
  cbn [at_point buffer attrs fifo_recv_cancel fifo_need_header fifo_packet
       last_packet pipe].
  intros -> -> -> Hne Hl.
  pose proof (differs_true_neq d lp Hl) as Hd.
  destruct d as [|b d]; [now contradiction Hne|].
  destruct v, nh; run_schedule Hd; rewrite <- ?app_assoc; simpl;
    repeat split.
Qed.

Lemma undisturbed_pass_writes_frame_witness :
  let m := exec Linux (Submit [x01] :: repeat (Run true) 6 ++ [Run false])
             (init 147) in
  let m' := exec Linux (repeat (Run true) 11) m in
  at_point m = AtWhile
  /\ buffer m = [GlobalHeader (Some 147)]
  /\ pipe m' =
       [GlobalHeader (Some 147); GlobalHeader (Some 147); Frame [x01]]
  /\ last_packet (attrs m') = Some [x01].
Proof.
  intros m m'.
  assert (Hp : at_point m = AtWhile) by reflexivity.
  assert (Hc : fifo_recv_cancel (attrs m) = false) by reflexivity.
  assert (Hs : fifo_packet (attrs m) = Some [x01]) by reflexivity.
  assert (Hne : [x01] <> @nil byte) by discriminate.
  assert (Hl : last_packet (attrs m) <> Some [x01]) by discriminate.
  destruct (undisturbed_pass_writes_frame Linux m [x01] Hp Hc Hs Hne Hl)
    as (_ & H2 & _ & H4 & _).
  split; [exact Hp|]. split; [reflexivity|].
  split; [exact H2 | exact H4].
Defined.

Lemma idle_without_submission (v : variant) (oks : list bool) (m : machine) :
  fifo_packet (attrs m) = None ->
  at_point m = AtWhile \/ at_point m = AtIfPacket \/ at_point m = AtSleep
  \/ at_point m = RunReturned ->
  calls (exec v (map Run oks) m) = calls m
  /\ pipe (exec v (map Run oks) m) = pipe m.
Proof.
  revert m. induction oks as [|ok oks IH]; intros m Hs Hp; simpl; [auto|].
  destruct m as [[c nh pk lp lt] pt bf pp cl hp fp]. simpl in *. subst pk.
  assert (H : fifo_packet (attrs (run_stmt v ok
                (mkMachine (mkObj c nh None lp lt) pt bf pp cl hp fp))) = None
              /\ (at_point (run_stmt v ok
                    (mkMachine (mkObj c nh None lp lt) pt bf pp cl hp fp))
                    = AtWhile
                  \/ at_point (run_stmt v ok
                       (mkMachine (mkObj c nh None lp lt) pt bf pp cl hp fp))
                       = AtIfPacket
                  \/ at_point (run_stmt v ok
                       (mkMachine (mkObj c nh None lp lt) pt bf pp cl hp fp))
                       = AtSleep
                  \/ at_point (run_stmt v ok
                       (mkMachine (mkObj c nh None lp lt) pt bf pp cl hp fp))
                       = RunReturned)
              /\ calls (run_stmt v ok
                    (mkMachine (mkObj c nh None lp lt) pt bf pp cl hp fp)) = cl
              /\ pipe (run_stmt v ok
                    (mkMachine (mkObj c nh None lp lt) pt bf pp cl hp fp)) = pp).
  { unfold run_stmt; simpl.
    destruct Hp as [-> | [-> | [-> | ->]]]; simpl; [destruct c| | |]; simpl; tauto. }
  destruct H as (H1 & H2 & H3 & H4).
  destruct (IH _ H1 H2) as [H5 H6]. now rewrite H5, H6, H3, H4.
Qed.

(** X17. A frame submitted while [run] is between the write of the
    previous frame and its bookkeeping (lines 77-78) is lost: submitted
    before line 77 it becomes [last_packet] although it was never written,
    submitted before line 78 it is simply erased; either way the slot is
    emptied, and the frame is not handed to a write or to the pipe however
    long the worker runs afterwards. *)
Theorem submission_during_bookkeeping_is_lost
        (v : variant) (m : machine) (b : bytes) (ok1 ok2 : bool)
        (oks : list bool) :
  (at_point m = AtSetLast ->
     let m' := exec v [Submit b; Run ok1; Run ok2] m in
     at_point m' = AtWhile
     /\ fifo_packet (attrs m') = None
     /\ last_packet (attrs m') = Some b
     /\ calls (exec v (map Run oks) m') = calls m
     /\ pipe (exec v (map Run oks) m') = pipe m)
  /\ (at_point m = AtClearPacket ->
        let m' := exec v [Submit b; Run ok1] m in
        at_point m' = AtWhile
        /\ fifo_packet (attrs m') = None
        /\ last_packet (attrs m') = last_packet (attrs m)
        /\ calls (exec v (map Run oks) m') = calls m
        /\ pipe (exec v (map Run oks) m') = pipe m).
Proof.
  destruct m as [[c nh pk lp lt] pt bf pp cl hp fp]. simpl. split.
  - intros ->. unfold run_stmt; simpl.
    split; [reflexivity|]. split; [reflexivity|]. split; [reflexivity|].
    apply (idle_without_submission v oks
             (mkMachine (mkObj c nh None (Some b) lt) AtWhile bf pp cl hp fp));
      simpl; auto.
  - intros ->. unfold run_stmt; simpl.
    split; [reflexivity|]. split; [reflexivity|]. split; [reflexivity|].
    apply (idle_without_submission v oks
             (mkMachine (mkObj c nh None lp lt) AtWhile bf pp cl hp fp));
      simpl; auto.
Qed.

Lemma submission_during_bookkeeping_is_lost_witness :
  let m := exec Linux (Submit [x0a] :: repeat (Run true) 10) (init 147) in
  let m' := exec Linux [Submit [x0b]; Run true; Run true] m in
  at_point m = AtSetLast
  /\ pipe m = [GlobalHeader (Some 147); Frame [x0a]]
  /\ fifo_packet (attrs m') = None
  /\ last_packet (attrs m') = Some [x0b]
  /\ pipe (exec Linux (map Run [true; true; true; true]) m') = pipe m.
Proof.
  intros m m'.
  assert (Hp : at_point m = AtSetLast) by reflexivity.
  destruct (submission_during_bookkeeping_is_lost Linux m [x0b] true true
              [true; true; true; true]) as (H & _).
  destruct (H Hp) as (_ & H2 & H3 & _ & H5).
  split; [exact Hp|]. split; [reflexivity|]. split; [exact H2|].
  split; [exact H3 | exact H5].
Defined.

(** X18. On Linux a frame whose flush raised reaches the pipe twice: it
    stays in the writer's buffer and in the slot, the next pass writes it
    again, and the flush that completes hands over both copies. *)
Theorem failed_flush_duplicates_frame
        (m : machine) (d : bytes) (held : list chunk) :
  at_point m = AtFlushPacket ->
  buffer m = held ++ [Frame d] ->
  fifo_recv_cancel (attrs m) = false ->
  fifo_need_header (attrs m) = false ->
  fifo_packet (attrs m) = Some d ->
  d <> [] ->
  last_packet (attrs m) <> Some d ->
  let m' := exec Linux (Run false :: repeat (Run true) 8) m in
  at_point m' = AtWhile
  /\ pipe m' = pipe m ++ held ++ [Frame d; Frame d]
  /\ buffer m' = []
  /\ fifo_packet (attrs m') = None
  /\ last_packet (attrs m') = Some d.
Proof.
  destruct m as [[c nh pk lp lt] pt bf pp cl hp fp].
  cbn [at_point buffer attrs fifo_recv_cancel fifo_need_header fifo_packet
       last_packet pipe].
  intros -> -> -> -> -> Hne Hl.
  pose proof (differs_true_neq d lp Hl) as Hd.
  destruct d as [|b d]; [now contradiction Hne|].
  run_schedule Hd. rewrite <- ?app_assoc. simpl. repeat split.
Qed.

Lemma failed_flush_duplicates_frame_witness :
  let m := exec Linux (Submit [x01] :: repeat (Run true) 9) (init 147) in
  let m' := exec Linux (Run false :: repeat (Run true) 8) m in
  at_point m = AtFlushPacket
  /\ submitted (Submit [x01] :: repeat (Run true) 9) = [[x01]]
  /\ pipe m' = [GlobalHeader (Some 147); Frame [x01]; Frame [x01]].
Proof.
  intros m m'.
  assert (Hp : at_point m = AtFlushPacket) by reflexivity.
  assert (Hb : buffer m = [] ++ [Frame [x01]]) by reflexivity.
  assert (Hc : fifo_recv_cancel (attrs m) = false) by reflexivity.
  assert (Hn : fifo_need_header (attrs m) = false) by reflexivity.
  assert (Hs : fifo_packet (attrs m) = Some [x01]) by reflexivity.
  assert (Hne : [x01] <> @nil byte) by discriminate.
  assert (Hl : last_packet (attrs m) <> Some [x01]) by discriminate.
  destruct (failed_flush_duplicates_frame m [x01] [] Hp Hb Hc Hn Hs Hne Hl)
    as (_ & H2 & _).
  split; [exact Hp|]. split; [reflexivity | exact H2].
Defined.

End StmtFacts.
